(** * A bump-pointer page arena and its allocator facade

    Shallow embedding of [allocator/page_allocator.h]: the arena
    [__detail::mem_pool] (one reserved mapping bracketed by two guard
    pages, lazy page commitment, bump allocation, in-place extension, slot
    bookkeeping) and the facade [page_allocator] built on it.

    - Pointers are addresses; addresses and [std::size_t] counters are
      64-bit unsigned integers, modelled by [Z] with the wrap-around of
      every operation written out ([u64]).  [nullptr] is address 0.
    - A member function becomes a function from the pool (and the host) to
      its result and the new pool (and host).
    - The four host calls of the header ([sysconf], [mmap], [mprotect],
      [munmap]) follow their manual pages; what the kernel is free to decide
      is a field of a [kernel] record, so every statement holds for every
      host.
    - The [while] loop of [checked_range_commit] runs on fuel; it is shown
      to leave within the number of pages of the mapping.
    - [Logger::log_line] never changes a result and is left out. *)

From Stdlib Require Import ZArith List Bool Lia.
Import ListNotations.
Local Open Scope Z_scope.

(** ** Machine integers *)

Definition two64 : Z := 18446744073709551616.

(** Conversion to [uint64_t] / [std::size_t]; also the result of every
    unsigned operation. *)
Definition u64 (z : Z) : Z := z mod two64.

Definition nullptr : Z := 0.

(** [MAP_FAILED] is [(void * ) -1]. *)
Definition MAP_FAILED : Z := two64 - 1.

(** User-space addresses lie in the lower half of the address space. *)
Definition user_top : Z := 9223372036854775808.

(** [__PTRDIFF_MAX__] *)
Definition PTRDIFF_MAX : Z := 9223372036854775807.

(** ** The host *)

(** What the kernel is free to decide.  [page_size] is the value
    [sysconf(_SC_PAGE_SIZE)] reports (the page granularity, or [-1] on
    failure); the other fields are consulted with the number of system calls
    served so far, so a host may grant a request once and refuse it later. *)
Record kernel := mk_kernel {
  page_size : Z;
  mmap_pick : nat -> Z -> Z;
  mprotect_grant : nat -> Z -> bool;
  munmap_grant : nat -> bool
}.

(** The part of the process state the arena can observe through the host
    calls: the live anonymous mappings (start, length), the pages that have
    been made readable and writable, and the number of calls served. *)
Record host := mk_host {
  mappings : list (Z * Z);
  rw_pages : list Z;
  syscalls : nat
}.

Definition fresh_host : host := mk_host [] [] 0.

Definition tick (h : host) : host :=
  mk_host (mappings h) (rw_pages h) (S (syscalls h)).

Definition inside (a len : Z) (m : Z * Z) : bool :=
  (fst m <=? a) && (a + len <=? fst m + snd m).

(** Start addresses of the pages of [[a, a + len)], [a] page aligned. *)
Definition pages_of (ps a len : Z) : list Z :=
  map (fun k => a + Z.of_nat k * ps) (seq 0 (Z.to_nat ((len + ps - 1) / ps))).

Section Host.

Variable K : kernel.

(** [mmap(NULL, len, PROT_NONE, MAP_ANONYMOUS | MAP_PRIVATE, -1, 0)]: a
    new inaccessible mapping at a page-aligned user-space address of the
    kernel's choice, or [MAP_FAILED] (a zero length is [EINVAL]). *)
Definition mmap (h : host) (len : Z) : host * Z :=
  let a := mmap_pick K (syscalls h) len in
  if (0 <? len) && (0 <? a) && (a mod page_size K =? 0)
     && (a + len <=? user_top)
  then (mk_host ((a, len) :: mappings h) (rw_pages h) (S (syscalls h)), a)
  else (tick h, MAP_FAILED).

(** [mprotect(addr, len, PROT_READ | PROT_WRITE)]: [EINVAL] when [addr]
    is not a multiple of the page size, [ENOMEM] when the range is not
    inside a mapping or the kernel refuses; otherwise the pages of the
    range become readable and writable.  Returns [0] or [-1]. *)
Definition mprotect (h : host) (addr len : Z) : host * Z :=
  if negb (addr mod page_size K =? 0) then (tick h, -1)
  else if negb (existsb (inside addr len) (mappings h)) then (tick h, -1)
  else if negb (mprotect_grant K (syscalls h) addr) then (tick h, -1)
  else (mk_host (mappings h)
                (pages_of (page_size K) addr len ++ rw_pages h)
                (S (syscalls h)), 0).

(** [munmap(addr, len)]: [EINVAL] for an unaligned address or an empty
    range; otherwise, unless the kernel refuses, every mapping and every
    page inside the range is gone.  Returns [0] or [-1]. *)
Definition munmap (h : host) (addr len : Z) : host * Z :=
  if negb (addr mod page_size K =? 0) || (len <=? 0) then (tick h, -1)
  else if negb (munmap_grant K (syscalls h)) then (tick h, -1)
  else (mk_host
          (filter (fun m => negb (inside (fst m) (snd m) (addr, len)))
                  (mappings h))
          (filter (fun p => negb ((addr <=? p) && (p <? addr + len)))
                  (rw_pages h))
          (S (syscalls h)), 0).

End Host.

(** ** The arena: [__detail::mem_pool] *)

Record mem_pool := mk_pool {
  begin_gp : Z;            (* start of the leading guard page *)
  end_gp : Z;              (* start of the trailing guard page *)
  allocation_area : Z;     (* address of slot 0 *)
  first_not_commited : Z;  (* first reserved, not committed page *)
  pages_mmaped : Z;
  occupied_slots : Z;
  free_slots_left : Z;
  pagesize : Z             (* [int pagesize] *)
}.

(** [const std::size_t allocate_pgs{10}] *)
Definition allocate_pgs : Z := 10.

(** [if (!pgs) pgs = allocate_pgs;] *)
Definition pages_to_map (pgs : Z) : Z :=
  if pgs =? 0 then allocate_pgs else pgs.

(** A default-constructed pool: every member at its initializer. *)
Definition empty_pool : mem_pool := mk_pool 0 0 0 0 0 0 0 0.

Definition set_first_not_commited (s : mem_pool) (v : Z) : mem_pool :=
  mk_pool (begin_gp s) (end_gp s) (allocation_area s) v (pages_mmaped s)
          (occupied_slots s) (free_slots_left s) (pagesize s).

Definition set_begin_gp (s : mem_pool) (v : Z) : mem_pool :=
  mk_pool v (end_gp s) (allocation_area s) (first_not_commited s)
          (pages_mmaped s) (occupied_slots s) (free_slots_left s) (pagesize s).

Definition set_pagesize_field (s : mem_pool) (v : Z) : mem_pool :=
  mk_pool (begin_gp s) (end_gp s) (allocation_area s) (first_not_commited s)
          (pages_mmaped s) (occupied_slots s) (free_slots_left s) v.

Definition set_slots (s : mem_pool) (occ free : Z) : mem_pool :=
  mk_pool (begin_gp s) (end_gp s) (allocation_area s) (first_not_commited s)
          (pages_mmaped s) occ free (pagesize s).

(** [bool owns(void *val)] *)
Definition owns (s : mem_pool) (val : Z) : bool :=
  (allocation_area s <? val) && (val <? begin_gp s).

Section Arena.

Variable K : kernel.

(** [sizeof(elem_type)], which is [sizeof(_Tp)]: the slot size. *)
Variable slot_size : Z.

(** [elem_type *p + k] *)
Definition slot_add (p k : Z) : Z := u64 (p + k * slot_size).

(** The bump frontier [allocation_area + occupied_slots]. *)
Definition frontier (s : mem_pool) : Z :=
  slot_add (allocation_area s) (occupied_slots s).

(** [int set_pagesize()] *)
Definition set_pagesize (s : mem_pool) : Z * mem_pool :=
  (page_size K, set_pagesize_field s (page_size K)).

(** [bool commit_page(void *pg)] *)
Definition commit_page (pg : Z) (s : mem_pool) (h : host)
  : bool * mem_pool * host :=
  if (pg <? u64 (begin_gp s + u64 (pagesize s))) || (end_gp s <? pg)
  then (false, s, h)
  else
    let '(h', r) := mprotect K h pg (u64 (pagesize s)) in
    if r =? -1 then (false, s, h')
    else (true, set_first_not_commited s (u64 (pg + u64 (pagesize s))), h').

(** The [while] loop of [checked_range_commit]; [None] when [fuel]
    iterations were not enough to leave it. *)
Fixpoint commit_loop (fuel : nat) (pg page_to_commit : Z)
         (s : mem_pool) (h : host) : option (bool * mem_pool * host) :=
  if page_to_commit <? pg then
    match fuel with
    | O => None
    | S fuel' =>
        match commit_page page_to_commit s h with
        | (true, s', h') =>
            commit_loop fuel' pg
                        (u64 (page_to_commit + u64 (pagesize s'))) s' h'
        | (false, s', h') => Some (false, s', h')
        end
    end
  else Some (true, s, h).

(** [bool checked_range_commit(void *pg)] *)
Definition checked_range_commit (fuel : nat) (pg : Z)
           (s : mem_pool) (h : host) : option (bool * mem_pool * host) :=
  if first_not_commited s <? pg
  then commit_loop fuel pg (first_not_commited s) s h
  else Some (true, s, h).

(** [bool deinit_pool()] *)
Definition deinit_pool (s : mem_pool) (h : host) : bool * mem_pool * host :=
  if begin_gp s =? nullptr then (false, s, h)
  else
    let '(h', r) :=
      munmap K h (begin_gp s) (u64 (pages_mmaped s * u64 (pagesize s))) in
    if r =? -1 then (false, s, h')
    else (true, mk_pool nullptr nullptr nullptr nullptr 0 0 0 (pagesize s), h').

(** The members as [init_pool] sets them once [mmap] has returned [a]. *)
Definition laid_out (s : mem_pool) (a pgs : Z) : mem_pool :=
  let ps := u64 (pagesize s) in
  let area := u64 (a + ps) in
  mk_pool a
          (u64 (a + u64 (u64 (pgs - 1) * ps)))
          area
          (u64 (area + ps))
          pgs
          0
          (u64 (u64 (pgs * ps) - u64 (2 * pagesize s)) / slot_size)
          (pagesize s).

(** [bool init_pool(std::size_t pgs)] *)
Definition init_pool (pgs : Z) (s : mem_pool) (h : host)
  : bool * mem_pool * host :=
  let s1 := if pagesize s =? 0 then snd (set_pagesize s) else s in
  if (pagesize s =? 0) && (pagesize s1 =? -1) then (false, s1, h)
  else if negb (begin_gp s1 =? nullptr) then (false, s1, h)
  else
    let pgs := pages_to_map pgs in
    let '(h1, a) := mmap K h (u64 (pgs * u64 (pagesize s1))) in
    if a =? MAP_FAILED then (false, set_begin_gp s1 a, h1)
    else
      let s2 := laid_out s1 a pgs in
      match commit_page (allocation_area s2) s2 h1 with
      | (true, s3, h2) => (true, s3, h2)
      | (false, s3, h2) =>
          let '(_, s4, h3) := deinit_pool s3 h2 in (false, s4, h3)
      end.

(** [void *get_allocation(std::size_t nmbr)] *)
Definition get_allocation (fuel : nat) (nmbr : Z) (s : mem_pool) (h : host)
  : option (Z * mem_pool * host) :=
  let '(ok, s1, h1) :=
    if begin_gp s =? nullptr then init_pool 0 s h else (true, s, h) in
  if negb ok then Some (nullptr, s1, h1)
  else if free_slots_left s1 <? nmbr then Some (nullptr, s1, h1)
  else
    let end_byte := u64 (slot_add (frontier s1) nmbr - 1) in
    match checked_range_commit fuel end_byte s1 h1 with
    | None => None
    | Some (false, s2, h2) => Some (nullptr, s2, h2)
    | Some (true, s2, h2) =>
        Some (frontier s2,
              set_slots s2 (u64 (occupied_slots s2 + nmbr))
                           (u64 (free_slots_left s2 - nmbr)),
              h2)
    end.

(** [bool extend_allocation(void *ptr, std::size_t old_nmbr,
    std::size_t new_nmbr)] *)
Definition extend_allocation (fuel : nat) (ptr old_nmbr new_nmbr : Z)
           (s : mem_pool) (h : host) : option (bool * mem_pool * host) :=
  let allocate_nmbr := u64 (new_nmbr - old_nmbr) in
  if ptr =? nullptr then Some (false, s, h)
  else if begin_gp s =? nullptr then Some (false, s, h)
  else if free_slots_left s <? allocate_nmbr then Some (false, s, h)
  else if negb (slot_add ptr old_nmbr =? frontier s) then Some (false, s, h)
  else
    let end_byte := u64 (slot_add (frontier s) allocate_nmbr - 1) in
    match checked_range_commit fuel end_byte s h with
    | None => None
    | Some (false, s1, h1) => Some (false, s1, h1)
    | Some (true, s1, h1) =>
        Some (true,
              set_slots s1 (u64 (occupied_slots s1 + allocate_nmbr))
                           (u64 (free_slots_left s1 - allocate_nmbr)),
              h1)
    end.

(** [bool delete_allocation(void *ptr, std::size_t nmbr)] *)
Definition delete_allocation (ptr nmbr : Z) (s : mem_pool)
  : bool * mem_pool :=
  if ptr =? nullptr then (false, s)
  else if begin_gp s =? nullptr then (false, s)
  else (true, set_slots s (u64 (occupied_slots s - nmbr))
                          (u64 (free_slots_left s + nmbr))).

End Arena.

(** ** The facade: [page_allocator] *)

Record page_allocator := mk_allocator {
  objs_number : Z;   (* [_MaxObjects]; zero means no ceiling *)
  _pool : mem_pool
}.

(** What a facade call does: it returns, or it throws [std::bad_alloc]. *)
Inductive outcome (A : Type) : Type :=
| returned (v : A)
| bad_alloc.
Arguments returned {A} v.
Arguments bad_alloc {A}.

Section Facade.

Variable K : kernel.

(** [sizeof(_Tp)], the size of a slot. *)
Variable slot_size : Z.

(** [_M_max_size()]: [std::size_t(__PTRDIFF_MAX__) / sizeof(_Tp)] *)
Definition _M_max_size : Z := PTRDIFF_MAX / slot_size.

(** [size_type max_size() const] *)
Definition max_size (a : page_allocator) : Z :=
  if objs_number a =? 0 then _M_max_size else objs_number a.

(** [_Tp *allocate(size_type __n, const void * = 0)] *)
Definition allocate (fuel : nat) (n : Z) (a : page_allocator) (h : host)
  : option (outcome Z * page_allocator * host) :=
  if _M_max_size <? n then Some (bad_alloc, a, h)
  else if max_size a <? u64 (occupied_slots (_pool a) + 1)
  then Some (bad_alloc, a, h)
  else
    match get_allocation K slot_size fuel n (_pool a) h with
    | None => None
    | Some (p, s', h') => Some (returned p, mk_allocator (objs_number a) s', h')
    end.

(** [void deallocate(_Tp *__p, size_type __t)] *)
Definition deallocate (p t : Z) (a : page_allocator) : page_allocator :=
  mk_allocator (objs_number a) (snd (delete_allocation p t (_pool a))).

End Facade.

(** ** A concrete host

    Pages of 4096 bytes, mappings placed at [0x10000], every request
    granted; [stingy n] is the same host refusing every protection change
    after the first [n] system calls. *)

Definition linux : kernel :=
  mk_kernel 4096 (fun _ _ => 65536) (fun _ _ => true) (fun _ => true).

Definition stingy (n : nat) : kernel :=
  mk_kernel 4096 (fun _ _ => 65536) (fun k _ => Nat.ltb k n) (fun _ => true).

(** The arena of the scenario: four pages, eight-byte slots. *)
Definition arena4 : mem_pool :=
  Eval vm_compute in snd (fst (init_pool linux 8 4 empty_pool fresh_host)).

Definition host4 : host :=
  Eval vm_compute in snd (init_pool linux 8 4 empty_pool fresh_host).

(** ** Runs of arena operations *)

(** The operations a client performs on an arena it has initialized, apart
    from the teardown and from a page commit of its own. *)
Inductive arena_op : Type :=
| op_allocate (nmbr : Z)
| op_extend (ptr old_nmbr new_nmbr : Z)
| op_free (ptr nmbr : Z)
| op_owns (val : Z)
| op_commit_range (pg : Z)
| op_init (pgs : Z).

Section Runs.

Variable K : kernel.
Variable slot_size : Z.

(** One operation, its result dropped; every loop gets [fuel]
    iterations. *)
Definition run_op (fuel : nat) (o : arena_op) (s : mem_pool) (h : host)
  : option (mem_pool * host) :=
  match o with
  | op_allocate nmbr =>
      match get_allocation K slot_size fuel nmbr s h with
      | Some (_, s', h') => Some (s', h')
      | None => None
      end
  | op_extend ptr old_nmbr new_nmbr =>
      match extend_allocation K slot_size fuel ptr old_nmbr new_nmbr s h with
      | Some (_, s', h') => Some (s', h')
      | None => None
      end
  | op_free ptr nmbr => Some (snd (delete_allocation ptr nmbr s), h)
  | op_owns val => let _ := owns s val in Some (s, h)
  | op_commit_range pg =>
      match checked_range_commit K fuel pg s h with
      | Some (_, s', h') => Some (s', h')
      | None => None
      end
  | op_init pgs =>
      let '(_, s', h') := init_pool K slot_size pgs s h in Some (s', h')
  end.

Fixpoint run_ops (fuel : nat) (os : list arena_op) (s : mem_pool) (h : host)
  : option (mem_pool * host) :=
  match os with
  | [] => Some (s, h)
  | o :: os' =>
      match run_op fuel o s h with
      | Some (s1, h1) => run_ops fuel os' s1 h1
      | None => None
      end
  end.

(** A sequence of [get_allocation] calls; the pointers they return, in
    order. *)
Fixpoint get_allocations (fuel : nat) (ns : list Z) (s : mem_pool) (h : host)
  : option (list Z * mem_pool * host) :=
  match ns with
  | [] => Some ([], s, h)
  | n :: ns' =>
      match get_allocation K slot_size fuel n s h with
      | None => None
      | Some (p, s1, h1) =>
          match get_allocations fuel ns' s1 h1 with
          | None => None
          | Some (ps, s2, h2) => Some (p :: ps, s2, h2)
          end
      end
  end.

End Runs.

(** The slots handed out by a sequence of requests [ns] that returned the
    pointers [ps]: a request that returned null handed out nothing. *)
Fixpoint granted_slots (ns ps : list Z) : Z :=
  match ns, ps with
  | n :: ns', p :: ps' =>
      (if p =? nullptr then 0 else n) + granted_slots ns' ps'
  | _, _ => 0
  end.

(** ** Well-formed arenas *)

(** The address layout [init_pool] sets up: one guard page, the usable
    region, the trailing guard page, all below [2^64]. *)
Record layout_ok (s : mem_pool) : Prop := {
  lay_page : 0 < pagesize s;
  lay_begin : 0 < begin_gp s;
  lay_area : allocation_area s = begin_gp s + pagesize s;
  lay_end : allocation_area s <= end_gp s;
  lay_top : end_gp s + pagesize s < two64;
  lay_frontier :
    allocation_area s + pagesize s <= first_not_commited s
    <= end_gp s + pagesize s
}.

(** Layout and slot accounting: the counters split the capacity of the
    usable region. *)
Record pool_inv (slot_size : Z) (s : mem_pool) : Prop := {
  inv_layout : layout_ok s;
  inv_occupied : 0 <= occupied_slots s;
  inv_free : 0 <= free_slots_left s;
  inv_capacity :
    occupied_slots s + free_slots_left s
    = (end_gp s - allocation_area s) / slot_size
}.

(** [s'] is [s] with the commit frontier moved forward, nothing else. *)
Definition advanced (s s' : mem_pool) : Prop :=
  s' = set_first_not_commited s (first_not_commited s') /\
  first_not_commited s <= first_not_commited s'.

(** Arena and host after an operation, compared with those before it: the
    layout is intact and the region is where it was, the commit frontier is
    not behind, every page that was accessible still is, the mappings are
    the same. *)
Definition forward (s : mem_pool) (h : host) (s' : mem_pool) (h' : host)
  : Prop :=
  layout_ok s' /\ first_not_commited s <= first_not_commited s' /\
  incl (rw_pages h) (rw_pages h') /\ mappings h' = mappings h /\
  end_gp s' = end_gp s /\ pagesize s' = pagesize s.

(** The arena and the host agree: the arena has the host's page size, its
    commit frontier is page aligned, and its mapping, both guard pages
    included, is one of the host's. *)
Record coupled (K : kernel) (s : mem_pool) (h : host) : Prop := {
  cpl_page : pagesize s = page_size K;
  cpl_aligned : first_not_commited s mod pagesize s = 0;
  cpl_mapped :
    In (begin_gp s, end_gp s + pagesize s - begin_gp s) (mappings h)
}.

(** A host that never refuses a protection change on mapped pages. *)
Definition generous (K : kernel) : Prop :=
  forall n a, mprotect_grant K n a = true.

(** Pages between the commit frontier and the end of the mapping: the most
    iterations the commit loop can make. *)
Definition pages_left (s : mem_pool) : Z :=
  (end_gp s + pagesize s - first_not_commited s) / pagesize s.

(** ** Copying, moving and swapping a pool *)

Section SpecialMembers.

Variable K : kernel.
Variable slot_size : Z.

(** [mem_pool(const mem_pool &other)] and the converting constructor: four
    members are copied, the pointers stay at their initializers, then
    [init_pool(pages_mmaped)] runs and its result is dropped. *)
Definition copy_construct (other : mem_pool) (h : host) : mem_pool * host :=
  let s :=
    mk_pool nullptr nullptr nullptr nullptr (pages_mmaped other)
            (occupied_slots other) (free_slots_left other) (pagesize other) in
  let '(_, s', h') := init_pool K slot_size (pages_mmaped s) s h in
  (s', h').

(** [mem_pool(mem_pool &&rhs)]: the new pool, and what is left of [rhs]. *)
Definition move_construct (rhs : mem_pool) : mem_pool * mem_pool :=
  (mk_pool (begin_gp rhs) (end_gp rhs) (allocation_area rhs)
           (first_not_commited rhs) (pages_mmaped rhs) (occupied_slots rhs)
           (free_slots_left rhs) (pagesize rhs),
   mk_pool nullptr nullptr nullptr nullptr 0 0 0 0).

(** [mem_pool &operator=(const mem_pool &other)], for two distinct
    objects: tear down, copy four members, initialize again. *)
Definition copy_assign (this other : mem_pool) (h : host) : mem_pool * host :=
  let '(_, s1, h1) := deinit_pool K this h in
  let s2 :=
    mk_pool (begin_gp s1) (end_gp s1) (allocation_area s1)
            (first_not_commited s1) (pages_mmaped other)
            (occupied_slots other) (free_slots_left other) (pagesize other) in
  let '(_, s3, h2) := init_pool K slot_size (pages_mmaped s2) s2 h1 in
  (s3, h2).

(** [mem_pool &operator=(mem_pool &&rhs)]: every member is overwritten,
    nothing is torn down; the assigned pool, and what is left of [rhs]. *)
Definition move_assign (this rhs : mem_pool) : mem_pool * mem_pool :=
  (mk_pool (begin_gp rhs) (end_gp rhs) (allocation_area rhs)
           (first_not_commited rhs) (pages_mmaped rhs) (occupied_slots rhs)
           (free_slots_left rhs) (pagesize rhs),
   mk_pool nullptr nullptr nullptr nullptr 0 0 0 0).

(** [void swap(mem_pool &other)]:
    [mem_pool tmp(other); other = std::move( *this); *this = std::move(tmp);]
    Returns [*this], [other] and the host. *)
Definition pool_swap (this other : mem_pool) (h : host)
  : mem_pool * mem_pool * host :=
  let '(tmp, h1) := copy_construct other h in
  let '(other1, this1) := move_assign other this in
  let '(this2, _) := move_assign this1 tmp in
  (this2, other1, h1).

(** [bool extend_allocation(_Tp *__p, std::size_t __sz, std::size_t
    __new_sz)] of the facade, the proxy of the pool's. *)
Definition extend_allocation_proxy (fuel : nat) (p sz new_sz : Z)
           (a : page_allocator) (h : host)
  : option (bool * page_allocator * host) :=
  match extend_allocation K slot_size fuel p sz new_sz (_pool a) h with
  | None => None
  | Some (ok, s', h') => Some (ok, mk_allocator (objs_number a) s', h')
  end.

End SpecialMembers.

(** How a destructor ends: normally, or by throwing
    [std::runtime_error]. *)
Inductive ending : Type :=
| ended
| runtime_error.

(** [~page_allocator()] *)
Definition destroy (K : kernel) (a : page_allocator) (h : host)
  : ending * page_allocator * host :=
  if negb (begin_gp (_pool a) =? nullptr) then
    let '(ok, s', h') := deinit_pool K (_pool a) h in
    if negb ok then (runtime_error, mk_allocator (objs_number a) s', h')
    else (ended, mk_allocator (objs_number a) s', h')
  else (ended, a, h).

(** The special members of the facade.  [get_mem_pool()] returns a
    reference to a constant pool, so the pool is copied wherever the facade
    is copied or moved.

    [page_allocator(const page_allocator &other)] and
    [page_allocator(page_allocator &&rhs)]: [_pool(other.get_mem_pool())],
    [_pool(std::move(rhs.get_mem_pool()))]. *)
Definition allocator_copy (K : kernel) (slot_size : Z)
           (other : page_allocator) (h : host) : page_allocator * host :=
  let '(s, h') := copy_construct K slot_size (_pool other) h in
  (mk_allocator (objs_number other) s, h').

(** [page_allocator &operator=(const page_allocator &other)] and
    [page_allocator &operator=(page_allocator &&rhs)], for two distinct
    objects: [_pool = other.get_mem_pool()],
    [_pool = std::move(rhs.get_mem_pool())]. *)
Definition allocator_assign (K : kernel) (slot_size : Z)
           (this other : page_allocator) (h : host) : page_allocator * host :=
  let '(s, h') := copy_assign K slot_size (_pool this) (_pool other) h in
  (mk_allocator (objs_number this) s, h').

(** [void swap(page_allocator &other)]:
    [page_allocator tmp(other); other = std::move( *this);
     *this = std::move(tmp);] and the destructor of [tmp] at the end of the
    scope.  Returns how that destructor ended, [*this], [other] and the
    host. *)
Definition allocator_swap (K : kernel) (slot_size : Z)
           (this other : page_allocator) (h : host)
  : ending * page_allocator * page_allocator * host :=
  let '(tmp, h1) := allocator_copy K slot_size other h in
  let '(other1, h2) := allocator_assign K slot_size other this h1 in
  let '(this1, h3) := allocator_assign K slot_size this tmp h2 in
  let '(e, _, h4) := destroy K tmp h3 in
  (e, this1, other1, h4).

(** A host like [linux] that places its mappings one megabyte apart, at
    sixteen places in turn. *)
Definition roomy : kernel :=
  mk_kernel 4096
            (fun k _ => 65536 + Z.of_nat (Nat.modulo k 16) * 1048576)
            (fun _ _ => true) (fun _ => true).

(** A host that always has a place for a mapping of [len] bytes. *)
Definition places (K : kernel) (len : Z) : Prop :=
  forall n,
    0 < mmap_pick K n len /\ mmap_pick K n len mod page_size K = 0 /\
    mmap_pick K n len + len <= user_top.

(** The range of [len] bytes at [a] overlaps no mapping of the host: what
    [mmap] without [MAP_FIXED] guarantees of the address it returns. *)
Definition apart (h : host) (a len : Z) : bool :=
  forallb (fun m => (a + len <=? fst m) || (fst m + snd m <=? a))
          (mappings h).

(** A pool that holds a mapping of the host's pages, as a successful
    [init_pool] leaves it and every arena operation keeps it. *)
Definition mapped (K : kernel) (s : mem_pool) : Prop :=
  begin_gp s <> nullptr /\ begin_gp s mod page_size K = 0 /\
  pagesize s = page_size K /\ 2 <= pages_mmaped s /\
  pages_mmaped s * page_size K < two64.

(** ** The vector over the facade

    The part of [vector] that decides how much storage to ask for and asks
    the arena to extend the block in place: the three pointers of
    [_Vector_impl] and the allocator it derives from.  The elements
    themselves are not part of the model. *)

Record vector := mk_vector {
  _M_start : Z;
  _M_finish : Z;
  _M_end_of_storage : Z;
  _M_alloc : page_allocator
}.

(** What a member of the vector does: it returns, or it throws
    [std::length_error]. *)
Inductive vresult (A : Type) : Type :=
| vreturned (v : A)
| length_error.
Arguments vreturned {A} v.
Arguments length_error {A}.

Section Vector.

Variable K : kernel.
Variable slot_size : Z.

(** The difference of two element pointers, in elements. *)
Definition ptr_diff (a b : Z) : Z := Z.quot (a - b) slot_size.

(** [size_type size() const] *)
Definition size (v : vector) : Z := u64 (ptr_diff (_M_finish v) (_M_start v)).

(** [size_type capacity() const] *)
Definition capacity (v : vector) : Z :=
  u64 (ptr_diff (_M_end_of_storage v) (_M_start v)).

(** [_S_max_size(const _Tp_alloc_type &__a)]; the allocator traits forward
    [max_size] to the member of the facade. *)
Definition _S_max_size (a : page_allocator) : Z :=
  Z.min (PTRDIFF_MAX / slot_size) (max_size slot_size a).

(** [size_type max_size() const] of the vector. *)
Definition vector_max_size (v : vector) : Z := _S_max_size (_M_alloc v).

(** [size_type _M_check_len(size_type __n, const char *__s) const]; [None]
    when it throws [std::length_error]. *)
Definition _M_check_len (n : Z) (v : vector) : option Z :=
  if u64 (vector_max_size v - size v) <? n then None
  else
    let len := u64 (size v + Z.max (size v) n) in
    Some (if (len <? size v) || (vector_max_size v <? len)
          then vector_max_size v else len).

(** [expander<_Al>::extend] for an allocator that declares
    [continuous_allocator]. *)
Definition expander_extend (fuel : nat) (a : page_allocator)
           (ptr sz new_sz : Z) (h : host)
  : option (bool * page_allocator * host) :=
  extend_allocation_proxy K slot_size fuel ptr sz new_sz a h.

(** [bool grow(std::size_t nmbr)] *)
Definition grow (fuel : nat) (nmbr : Z) (v : vector) (h : host)
  : option (vresult bool * vector * host) :=
  if _M_start v =? nullptr then Some (vreturned false, v, h)
  else
    let sz := capacity v in
    match _M_check_len nmbr v with
    | None => Some (length_error, v, h)
    | Some new_sz =>
        match expander_extend fuel (_M_alloc v) (_M_start v) sz new_sz h with
        | None => None
        | Some (true, a', h') =>
            Some (vreturned true,
                  mk_vector (_M_start v) (_M_finish v)
                            (slot_add slot_size (_M_start v) new_sz) a',
                  h')
        | Some (false, a', h') =>
            Some (vreturned false,
                  mk_vector (_M_start v) (_M_finish v)
                            (_M_end_of_storage v) a',
                  h')
        end
    end.

End Vector.

(** ** Requests that fit *)

(** A request a client may make of an arena in state [s]: counts are
    [std::size_t] values, and no more slots are freed than are occupied. *)
Definition op_fits (s : mem_pool) (o : arena_op) : Prop :=
  match o with
  | op_allocate n => 0 <= n
  | op_free _ n => 0 <= n <= occupied_slots s
  | _ => True
  end.

(** Every request of a run fits the state it is made in. *)
Fixpoint fits_along (K : kernel) (slot_size : Z) (fuel : nat)
         (os : list arena_op) (s : mem_pool) (h : host) : Prop :=
  match os with
  | [] => True
  | o :: os' =>
      op_fits s o /\
      match run_op K slot_size fuel o s h with
      | Some (s1, h1) => fits_along K slot_size fuel os' s1 h1
      | None => True
      end
  end.

(** Well-formedness and the sum of the two counters, after an operation. *)
Definition kept (slot_size : Z) (s s' : mem_pool) : Prop :=
  pool_inv slot_size s' /\
  occupied_slots s' + free_slots_left s'
  = occupied_slots s + free_slots_left s.

(** ** What a successful initialization leaves *)

(** The arena of [n] pages of [ps] bytes at address [a], empty, its first
    usable page committed. *)
Definition fresh_arena (slot_size a n ps : Z) : mem_pool :=
  mk_pool a (a + (n - 1) * ps) (a + ps) (a + ps + ps) n 0
          ((n - 2) * ps / slot_size) ps.

(** The host once the kernel has made page [pg] accessible. *)
Definition with_page (h : host) (pg : Z) : host :=
  mk_host (mappings h) (pg :: rw_pages h) (S (syscalls h)).

(** The pool a failed reservation leaves behind a default-constructed
    one. *)
Definition dead_pool (ps : Z) : mem_pool :=
  mk_pool MAP_FAILED nullptr nullptr nullptr 0 0 0 ps.

(** A host without address space to give. *)
Definition barren : kernel :=
  mk_kernel 4096 (fun _ _ => MAP_FAILED) (fun _ _ => true) (fun _ => true).

(** ** Proof steps *)

(** Reduce the projections of a pool written out as a record, and nothing
    of the arithmetic. *)
Ltac pool_simpl :=
  cbn [begin_gp end_gp allocation_area first_not_commited pages_mmaped
       occupied_slots free_slots_left pagesize set_first_not_commited
       set_begin_gp set_pagesize_field set_slots fst snd] in *.

(** Split a conjunction into its parts, and nothing else. *)
Ltac conjs := repeat match goal with |- _ /\ _ => split end.

(** Invariants of a pool written out as a record are checked by
    computation. *)
Ltac inv_by_computation :=
  repeat (constructor; pool_simpl); try reflexivity; try lia;
  try discriminate.

(** ** Unsigned 64-bit arithmetic *)

Lemma u64_range z : 0 <= u64 z < two64.
Proof. unfold u64. apply Z.mod_pos_bound. reflexivity. Qed.

Lemma u64_small z : 0 <= z < two64 -> u64 z = z.
Proof. intros H. unfold u64. apply Z.mod_small. exact H. Qed.

Lemma u64_idem z : u64 (u64 z) = u64 z.
Proof. unfold u64. apply Z.mod_mod. discriminate. Qed.

Lemma u64_add_l a b : u64 (u64 a + b) = u64 (a + b).
Proof. unfold u64. apply Zplus_mod_idemp_l. Qed.

Lemma u64_add_r a b : u64 (a + u64 b) = u64 (a + b).
Proof. unfold u64. apply Zplus_mod_idemp_r. Qed.

Lemma u64_sub_l a b : u64 (u64 a - b) = u64 (a - b).
Proof. unfold u64. apply Zminus_mod_idemp_l. Qed.

Lemma u64_sub_r a b : u64 (a - u64 b) = u64 (a - b).
Proof. unfold u64. apply Zminus_mod_idemp_r. Qed.

Lemma u64_mul_l a b : u64 (u64 a * b) = u64 (a * b).
Proof. unfold u64. apply Zmult_mod_idemp_l. Qed.

Lemma u64_mul_r a b : u64 (a * u64 b) = u64 (a * b).
Proof. unfold u64. apply Zmult_mod_idemp_r. Qed.

(** A negative difference wraps to the top of the range. *)
Lemma u64_wrap_neg d : 0 < d <= two64 -> u64 (- d) = two64 - d.
Proof.
  intros H. unfold u64.
  symmetry. apply (Zmod_unique (- d) two64 (-1)); lia.
Qed.

(** ** The host calls only ever add access *)

Lemma mprotect_spec K h addr len h' r :
  mprotect K h addr len = (h', r) ->
  mappings h' = mappings h /\ incl (rw_pages h) (rw_pages h') /\
  (r = -1 \/ r = 0) /\ (r = -1 -> rw_pages h' = rw_pages h) /\
  (r = 0 -> addr mod page_size K = 0).
Proof.
  unfold mprotect. intros E.
  destruct (addr mod page_size K =? 0) eqn:A; simpl in E;
    [ apply Z.eqb_eq in A | ].
  2:{ injection E as <- <-. simpl. repeat split; auto using incl_refl.
      discriminate. }
  destruct (existsb (inside addr len) (mappings h)); simpl in E.
  2:{ injection E as <- <-. simpl. repeat split; auto using incl_refl. }
  destruct (mprotect_grant K (syscalls h) addr); simpl in E;
    injection E as <- <-; simpl; repeat split; auto using incl_refl.
  - apply incl_appr, incl_refl.
  - discriminate.
Qed.

(** ** Arena invariants *)

Section Invariants.

Variable K : kernel.

Lemma advanced_refl s : advanced s s.
Proof. split; [destruct s; reflexivity | lia]. Qed.

Lemma advanced_trans s1 s2 s3 :
  advanced s1 s2 -> advanced s2 s3 -> advanced s1 s3.
Proof.
  intros [E1 L1] [E2 L2]. split; [ | lia ].
  rewrite E2 at 1. rewrite E1. destruct s1; reflexivity.
Qed.

Lemma layout_page_u64 s : layout_ok s -> u64 (pagesize s) = pagesize s.
Proof. intros [? ? ? ? ? ?]. apply u64_small. lia. Qed.

Lemma layout_not_null s : layout_ok s -> (begin_gp s =? nullptr) = false.
Proof. intros [? ? ? ? ? ?]. apply Z.eqb_neq. unfold nullptr. lia. Qed.

(** What one [commit_page] call can do. *)
Lemma commit_page_spec pg s h ok s' h' :
  layout_ok s ->
  commit_page K pg s h = (ok, s', h') ->
  mappings h' = mappings h /\ incl (rw_pages h) (rw_pages h') /\
  (ok = false -> s' = s /\ rw_pages h' = rw_pages h) /\
  (ok = true ->
     (allocation_area s <= pg <= end_gp s) /\ pg mod page_size K = 0 /\
     s' = set_first_not_commited s (pg + pagesize s)).
Proof.
  intros L. unfold commit_page.
  rewrite (layout_page_u64 s L).
  assert (B : u64 (begin_gp s + pagesize s) = allocation_area s).
  { destruct L. rewrite u64_small; lia. }
  rewrite B.
  destruct ((pg <? allocation_area s) || (end_gp s <? pg)) eqn:G.
  - intros E. injection E as <- <- <-.
    repeat split; auto using incl_refl; discriminate.
  - apply orb_false_iff in G. destruct G as [G1 G2].
    apply Z.ltb_ge in G1, G2.
    destruct (mprotect K h pg (pagesize s)) as [h1 r] eqn:M.
    destruct (mprotect_spec _ _ _ _ _ _ M) as (Hm & Hi & Hr & Hf & Ha).
    destruct Hr as [-> | ->]; simpl; intros E; injection E as <- <- <-.
    + repeat split; auto; discriminate.
    + repeat split; auto; try discriminate.
      rewrite u64_small; [reflexivity | destruct L; lia].
Qed.

Lemma commit_page_layout pg s h ok s' h' :
  layout_ok s ->
  commit_page K pg s h = (ok, s', h') ->
  layout_ok s' /\ (ok = true -> first_not_commited s' = pg + pagesize s) /\
  (ok = false -> s' = s).
Proof.
  intros L E.
  destruct (commit_page_spec _ _ _ _ _ _ L E) as (_ & _ & Hf & Ht).
  destruct ok.
  - destruct (Ht eq_refl) as (R & _ & ->).
    split; [ | split; [reflexivity | discriminate] ].
    destruct L. constructor; simpl; lia.
  - destruct (Hf eq_refl) as [-> _].
    split; [exact L | split; [discriminate | reflexivity] ].
Qed.

(** The loop of [checked_range_commit], entered at the frontier. *)
Lemma commit_loop_spec fuel : forall pg s h ok s' h',
  layout_ok s ->
  commit_loop K fuel pg (first_not_commited s) s h = Some (ok, s', h') ->
  layout_ok s' /\ advanced s s' /\
  mappings h' = mappings h /\ incl (rw_pages h) (rw_pages h') /\
  (ok = true -> pg <= first_not_commited s').
Proof.
  induction fuel as [ | fuel IH ]; intros pg s h ok s' h' L; simpl.
  - destruct (first_not_commited s <? pg) eqn:C; [discriminate | ].
    intros E. injection E as <- <- <-. apply Z.ltb_ge in C.
    conjs; auto using incl_refl; try apply advanced_refl.
  - destruct (first_not_commited s <? pg) eqn:C.
    2:{ intros E. injection E as <- <- <-. apply Z.ltb_ge in C.
        conjs; auto using incl_refl; try apply advanced_refl. }
    destruct (commit_page K (first_not_commited s) s h)
      as [[ok1 s1] h1] eqn:P.
    destruct (commit_page_spec _ _ _ _ _ _ L P) as (Hm & Hi & Hf & Ht).
    destruct (commit_page_layout _ _ _ _ _ _ L P) as (L1 & Hn & _).
    destruct ok1.
    + destruct (Ht eq_refl) as (R & _ & E1).
      specialize (Hn eq_refl).
      assert (P1 : pagesize s1 = pagesize s) by (rewrite E1; reflexivity).
      rewrite P1, (layout_page_u64 s L).
      rewrite u64_small by (destruct L; lia).
      rewrite <- Hn. intros E.
      destruct (IH _ _ _ _ _ _ L1 E) as (L' & A' & M' & I' & T').
      assert (A1 : advanced s s1).
      { split; [ rewrite Hn; exact E1 | ].
        rewrite Hn. destruct L. lia. }
      conjs; eauto using advanced_trans, incl_tran; congruence.
    + destruct (Hf eq_refl) as [-> Hr]. intros E. injection E as <- <- <-.
      conjs; auto; try apply advanced_refl. discriminate.
Qed.

Lemma checked_range_commit_spec fuel pg s h ok s' h' :
  layout_ok s ->
  checked_range_commit K fuel pg s h = Some (ok, s', h') ->
  layout_ok s' /\ advanced s s' /\
  mappings h' = mappings h /\ incl (rw_pages h) (rw_pages h') /\
  (ok = true -> pg <= first_not_commited s').
Proof.
  intros L. unfold checked_range_commit.
  destruct (first_not_commited s <? pg) eqn:C.
  - apply commit_loop_spec. exact L.
  - intros E. injection E as <- <- <-. apply Z.ltb_ge in C.
    conjs; auto using incl_refl; try apply advanced_refl.
Qed.

End Invariants.

(** ** The operations on an initialized arena *)

Section Operations.

Variable K : kernel.
Variable slot_size : Z.

Lemma slot_add_add p a b : slot_add slot_size (slot_add slot_size p a) b = slot_add slot_size p (a + b).
Proof.
  unfold slot_add. rewrite u64_add_l. f_equal. ring.
Qed.

Lemma slot_add_u64 p k : slot_add slot_size p (u64 k) = slot_add slot_size p k.
Proof.
  unfold slot_add.
  rewrite <- u64_add_r, u64_mul_l, u64_add_r. reflexivity.
Qed.

Lemma advanced_fields s s' :
  advanced s s' ->
  begin_gp s' = begin_gp s /\ end_gp s' = end_gp s /\
  allocation_area s' = allocation_area s /\
  occupied_slots s' = occupied_slots s /\
  free_slots_left s' = free_slots_left s /\
  pagesize s' = pagesize s /\ pages_mmaped s' = pages_mmaped s.
Proof. intros [-> _]. simpl. conjs; reflexivity. Qed.

Lemma advanced_frontier s s' : advanced s s' -> frontier slot_size s' = frontier slot_size s.
Proof.
  intros A. destruct (advanced_fields _ _ A) as (_ & _ & Ea & Eo & _).
  unfold frontier. rewrite Ea, Eo. reflexivity.
Qed.

(** Only the test of the lazy initialization is left of it once the arena
    is initialized. *)
Lemma get_allocation_initialized fuel n s h :
  begin_gp s <> nullptr ->
  get_allocation K slot_size fuel n s h =
  if free_slots_left s <? n then Some (nullptr, s, h)
  else
    match checked_range_commit K fuel (u64 (slot_add slot_size (frontier slot_size s) n - 1)) s h
    with
    | None => None
    | Some (false, s2, h2) => Some (nullptr, s2, h2)
    | Some (true, s2, h2) =>
        Some (frontier slot_size s2,
              set_slots s2 (u64 (occupied_slots s2 + n))
                           (u64 (free_slots_left s2 - n)),
              h2)
    end.
Proof.
  intros B. unfold get_allocation.
  apply Z.eqb_neq in B. rewrite B. reflexivity.
Qed.

Hypothesis slot_size_pos : 0 < slot_size.

Lemma capacity_bytes s :
  pool_inv slot_size s ->
  (occupied_slots s + free_slots_left s) * slot_size
  <= end_gp s - allocation_area s.
Proof.
  intros [L O F C]. rewrite C, Z.mul_comm.
  apply Z.mul_div_le. exact slot_size_pos.
Qed.

(** On a well-formed arena the bump frontier slot_size is a plain sum, inside the
    usable region. *)
Lemma frontier_exact s :
  pool_inv slot_size s ->
  frontier slot_size s = allocation_area s + occupied_slots s * slot_size /\
  allocation_area s <= frontier slot_size s <= end_gp s.
Proof.
  intros I. pose proof (capacity_bytes s I) as C.
  destruct I as [L O F _]. destruct L.
  assert (0 <= occupied_slots s * slot_size
          <= (occupied_slots s + free_slots_left s) * slot_size) by nia.
  unfold frontier, slot_add.
  rewrite u64_small by lia. lia.
Qed.

Lemma pool_inv_advanced s s' :
  pool_inv slot_size s -> layout_ok s' -> advanced s s' -> pool_inv slot_size s'.
Proof.
  intros [L O F C] L' A.
  destruct (advanced_fields _ _ A) as (_ & Ee & Ea & Eo & Ef & _).
  constructor; [exact L' | lia | lia | rewrite Ee, Ea, Eo, Ef; exact C].
Qed.

(** Moving [d] slots from the free side to the occupied side. *)
Lemma pool_inv_bump s d :
  pool_inv slot_size s -> 0 <= d <= free_slots_left s ->
  pool_inv slot_size (set_slots s (u64 (occupied_slots s + d))
                        (u64 (free_slots_left s - d))) /\
  u64 (occupied_slots s + d) = occupied_slots s + d /\
  u64 (free_slots_left s - d) = free_slots_left s - d.
Proof.
  intros I D. pose proof (capacity_bytes s I) as C.
  destruct I as [L O F E].
  assert (B : occupied_slots s + free_slots_left s < two64).
  { destruct L. nia. }
  rewrite !u64_small by lia. split; [ | split; reflexivity ].
  constructor; simpl; try lia.
  destruct L; constructor; simpl; assumption.
Qed.

(** What [get_allocation] does on a well-formed arena: it either returns
    null and leaves everything but the commit frontier slot_size alone, or it returns
    the bump frontier slot_size and moves [nmbr] slots to the occupied side. *)
Lemma get_allocation_spec fuel n s h p s' h' :
  pool_inv slot_size s -> 0 <= n ->
  get_allocation K slot_size fuel n s h = Some (p, s', h') ->
  pool_inv slot_size s' /\ mappings h' = mappings h /\
  incl (rw_pages h) (rw_pages h') /\
  first_not_commited s <= first_not_commited s' /\
  ((p = nullptr /\ advanced s s') \/
   (p <> nullptr /\ n <= free_slots_left s /\
    p = allocation_area s + occupied_slots s * slot_size /\
    exists s2, advanced s s2 /\
      s' = set_slots s2 (occupied_slots s + n) (free_slots_left s - n))).
Proof.
  intros I N.
  assert (L : layout_ok s) by (destruct I; assumption).
  rewrite get_allocation_initialized
    by (destruct L; unfold nullptr; lia).
  destruct (free_slots_left s <? n) eqn:C.
  { intros E. injection E as <- <- <-.
    conjs; auto using incl_refl; try lia. left. split; auto.
    apply advanced_refl. }
  apply Z.ltb_ge in C.
  destruct (checked_range_commit K fuel _ s h) as [[[ok s2] h2] | ] eqn:R;
    [ | discriminate ].
  destruct (checked_range_commit_spec _ _ _ _ _ _ _ _ L R)
    as (L2 & A & M & In & _).
  pose proof (pool_inv_advanced _ _ I L2 A) as I2.
  destruct (advanced_fields _ _ A) as (_ & _ & Ea & Eo & Ef & _).
  destruct ok; intros E; injection E as <- <- <-.
  - destruct (pool_inv_bump s2 n I2) as (I' & U1 & U2); [lia | ].
    destruct (frontier_exact s I) as [Fe Fr].
    rewrite (advanced_frontier _ _ A).
    conjs; auto; [ simpl; apply A | ]. right.
    assert (L0 := L). destruct L0.
    conjs; [ unfold nullptr; lia | lia | exact Fe | ].
    exists s2. split; [exact A | ]. rewrite U1, U2, Eo, Ef. reflexivity.
  - conjs; auto; apply A.
Qed.

End Operations.

(** ** Initialization *)

Section Initialization.

Variable K : kernel.
Variable slot_size : Z.

Lemma mmap_spec h len h' a :
  mmap K h len = (h', a) -> a <> MAP_FAILED ->
  0 < len /\ 0 < a /\ a + len <= user_top /\ a mod page_size K = 0 /\
  mappings h' = (a, len) :: mappings h.
Proof.
  unfold mmap. intros E N.
  destruct ((0 <? len) && (0 <? mmap_pick K (syscalls h) len)
            && (mmap_pick K (syscalls h) len mod page_size K =? 0)
            && (mmap_pick K (syscalls h) len + len <=? user_top)) eqn:C;
    injection E as <- <-; [ | congruence ].
  apply andb_true_iff in C. destruct C as [C C4].
  apply andb_true_iff in C. destruct C as [C C3].
  apply andb_true_iff in C. destruct C as [C1 C2].
  apply Z.ltb_lt in C1, C2. apply Z.eqb_eq in C3. apply Z.leb_le in C4.
  simpl. auto.
Qed.

(** [commit_page] writes no member but the commit frontier. *)
Lemma commit_page_frame pg s h ok s' h' :
  commit_page K pg s h = (ok, s', h') ->
  s' = set_first_not_commited s (first_not_commited s') /\
  mappings h' = mappings h /\
  (ok = true ->
     u64 (begin_gp s + u64 (pagesize s)) <= pg <= end_gp s /\
     first_not_commited s' = u64 (pg + u64 (pagesize s))).
Proof.
  unfold commit_page.
  destruct ((pg <? u64 (begin_gp s + u64 (pagesize s))) || (end_gp s <? pg))
    eqn:G.
  - intros E. injection E as <- <- <-.
    conjs; [destruct s; reflexivity | reflexivity | discriminate].
  - apply orb_false_iff in G. destruct G as [G1 G2].
    apply Z.ltb_ge in G1, G2.
    destruct (mprotect K h pg (u64 (pagesize s))) as [h1 r] eqn:M.
    destruct (mprotect_spec _ _ _ _ _ _ M) as (Hm & _).
    destruct (r =? -1); intros E; injection E as <- <- <-.
    + conjs; [destruct s; reflexivity | exact Hm | discriminate].
    + simpl. conjs; [reflexivity | exact Hm | intros _; lia].
Qed.

(** A successful [init_pool] is one [mmap] and one [commit_page] on the
    members laid out from the mapping's address. *)
Lemma init_pool_success pgs s h s' h' :
  init_pool K slot_size pgs s h = (true, s', h') ->
  exists s1 a h1,
    s1 = (if pagesize s =? 0 then snd (set_pagesize K s) else s) /\
    pagesize s1 = pagesize s' /\
    mmap K h (u64 (pages_to_map pgs * u64 (pagesize s1))) = (h1, a) /\
    a <> MAP_FAILED /\
    commit_page K (allocation_area (laid_out slot_size s1 a (pages_to_map pgs)))
                (laid_out slot_size s1 a (pages_to_map pgs)) h1
    = (true, s', h').
Proof.
  unfold init_pool.
  set (s1 := if pagesize s =? 0 then snd (set_pagesize K s) else s).
  destruct ((pagesize s =? 0) && (pagesize s1 =? -1)); [discriminate | ].
  destruct (begin_gp s1 =? nullptr); simpl; [ | discriminate ].
  destruct (mmap K h (u64 (pages_to_map pgs * u64 (pagesize s1))))
    as [h1 a] eqn:M.
  destruct (a =? MAP_FAILED) eqn:F; [discriminate | ].
  apply Z.eqb_neq in F.
  destruct (commit_page K _ (laid_out slot_size s1 a (pages_to_map pgs)) h1)
    as [[ok s3] h2] eqn:C.
  destruct ok.
  - intros E. injection E as <- <-.
    exists s1, a, h1. conjs; auto.
    destruct (commit_page_frame _ _ _ _ _ _ C) as [-> _]. reflexivity.
  - destruct (deinit_pool K s3 h2) as [[? ?] ?]. discriminate.
Qed.

(** The arena a successful initialization leaves is well formed and
    empty, with exactly its first page committed. *)
Lemma init_pool_inv pgs s h s' h' :
  0 < slot_size -> 0 <= pgs ->
  0 < pagesize s' -> pages_to_map pgs * pagesize s' < two64 ->
  init_pool K slot_size pgs s h = (true, s', h') ->
  pool_inv slot_size s' /\ occupied_slots s' = 0 /\
  first_not_commited s' = allocation_area s' + pagesize s' /\
  begin_gp s' mod page_size K = 0 /\
  In (begin_gp s', end_gp s' + pagesize s' - begin_gp s') (mappings h') /\
  (pagesize s = 0 -> pagesize s' = page_size K).
Proof.
  intros Sl Pg Pp Pw E.
  destruct (init_pool_success _ _ _ _ _ E)
    as (s1 & a & h1 & S1 & Ps & M & F & C).
  assert (Pk : pagesize s = 0 -> pagesize s' = page_size K).
  { intros Z0. rewrite <- Ps, S1, Z0. reflexivity. }
  clear S1.
  destruct (mmap_spec _ _ _ _ M F) as (Ml & Ma & Mt & Mal & Mm).
  set (n := pages_to_map pgs) in *. set (ps := pagesize s') in *.
  assert (Hn : 1 <= n).
  { unfold n, pages_to_map, allocate_pgs.
    destruct (pgs =? 0) eqn:Z0; [lia | apply Z.eqb_neq in Z0; lia]. }
  assert (Hps : u64 ps = ps) by (apply u64_small; nia).
  rewrite Ps, Hps in M, Ml, Mt.
  rewrite (u64_small (n * ps)) in Ml, Mt by nia.
  assert (T : user_top < two64) by reflexivity.
  destruct (commit_page_frame _ _ _ _ _ _ C) as (Es & Mc & R).
  destruct (R eq_refl) as (Rr & Rf). clear R.
  rewrite Ps, Hps in Mm. rewrite (u64_small (n * ps)) in Mm by nia.
  unfold laid_out in *. pool_simpl. rewrite Ps, Hps in *.
  rewrite (u64_small (n - 1)) in * by nia.
  rewrite (u64_small ((n - 1) * ps)) in * by nia.
  rewrite (u64_small (a + ps)) in * by nia.
  rewrite (u64_small (a + (n - 1) * ps)) in * by nia.
  rewrite (u64_small (n * ps)) in * by nia.
  assert (N2 : 2 <= n) by nia.
  rewrite (u64_small (2 * ps)) in * by nia.
  rewrite (u64_small (n * ps - 2 * ps)) in * by nia.
  rewrite (u64_small (a + ps + ps)) in * by nia.
  rewrite Es in *. pool_simpl. rewrite Rf.
  conjs; try reflexivity; try assumption.
  - constructor; pool_simpl.
    + constructor; pool_simpl; nia.
    + lia.
    + apply Z.div_pos; nia.
    + rewrite Z.add_0_l. f_equal. ring.
  - rewrite Mc, Mm. left. f_equal. ring.
Qed.

(** The arena a successful initialization of a default-constructed pool
    leaves agrees with the host. *)
Lemma init_pool_coupled pgs s h s' h' :
  0 < slot_size -> 0 <= pgs -> pagesize s = 0 ->
  0 < page_size K -> pages_to_map pgs * page_size K < two64 ->
  init_pool K slot_size pgs s h = (true, s', h') ->
  pool_inv slot_size s' /\ coupled K s' h'.
Proof.
  intros Sl Pg Z0 Pp Pw E.
  assert (Pk : pagesize s' = page_size K).
  { destruct (init_pool_success _ _ _ _ _ E)
      as (s1 & _ & _ & S1 & Ps & _).
    rewrite <- Ps, S1, Z0. reflexivity. }
  rewrite <- Pk in Pp, Pw.
  destruct (init_pool_inv _ _ _ _ _ Sl Pg Pp Pw E)
    as (I & _ & Ef & Ab & Im & _).
  split; [exact I | ].
  constructor; [exact Pk | | exact Im].
  destruct I as [[Lp Lb La Le Lt Lf] _ _ _].
  rewrite Ef, La.
  replace (begin_gp s' + pagesize s' + pagesize s')
    with (begin_gp s' + 2 * pagesize s') by ring.
  rewrite Z.mod_add by lia. rewrite Pk. exact Ab.
Qed.

End Initialization.

(** ** Termination of the commit loop *)

Section Termination.

Variable K : kernel.
Variable slot_size : Z.

Lemma pages_left_nonneg s : layout_ok s -> 0 <= pages_left s.
Proof.
  intros []. unfold pages_left. apply Z.div_pos; lia.
Qed.

Lemma pages_left_step s :
  layout_ok s ->
  pages_left (set_first_not_commited s (first_not_commited s + pagesize s))
  = pages_left s - 1.
Proof.
  intros []. unfold pages_left. pool_simpl.
  replace (end_gp s + pagesize s - (first_not_commited s + pagesize s))
    with (end_gp s + pagesize s - first_not_commited s + -1 * pagesize s)
    by ring.
  rewrite Z.div_add by lia. ring.
Qed.

(** The loop leaves within as many iterations as there are pages between
    the frontier and the end of the mapping, plus one. *)
Lemma commit_loop_total fuel : forall pg s h,
  layout_ok s -> pages_left s < Z.of_nat fuel ->
  exists r, commit_loop K fuel pg (first_not_commited s) s h = Some r.
Proof.
  induction fuel as [ | fuel IH ]; intros pg s h L B.
  - pose proof (pages_left_nonneg s L). simpl in B. lia.
  - simpl. destruct (first_not_commited s <? pg); [ | eauto ].
    destruct (commit_page K (first_not_commited s) s h)
      as [[ok s1] h1] eqn:P.
    destruct ok; [ | eauto ].
    destruct (commit_page_spec _ _ _ _ _ _ _ L P) as (_ & _ & _ & Ht).
    destruct (commit_page_layout _ _ _ _ _ _ _ L P) as (L1 & Hn & _).
    destruct (Ht eq_refl) as (R & _ & E1). specialize (Hn eq_refl).
    assert (P1 : pagesize s1 = pagesize s) by (rewrite E1; reflexivity).
    rewrite P1, (layout_page_u64 s L).
    rewrite u64_small by (destruct L; lia).
    rewrite <- Hn. apply IH; [exact L1 | ].
    rewrite E1, pages_left_step by exact L. lia.
Qed.

Lemma checked_range_commit_total fuel pg s h :
  layout_ok s -> pages_left s < Z.of_nat fuel ->
  exists r, checked_range_commit K fuel pg s h = Some r.
Proof.
  intros L B. unfold checked_range_commit.
  destruct (first_not_commited s <? pg); [ | eauto ].
  apply commit_loop_total; assumption.
Qed.

Lemma get_allocation_total fuel n s h :
  layout_ok s -> pages_left s < Z.of_nat fuel ->
  exists r, get_allocation K slot_size fuel n s h = Some r.
Proof.
  intros L B.
  rewrite get_allocation_initialized by (destruct L; unfold nullptr; lia).
  destruct (free_slots_left s <? n); [eauto | ].
  destruct (checked_range_commit_total fuel
              (u64 (slot_add slot_size (frontier slot_size s) n - 1)) s h L B)
    as ([[ok s1] h1] & ->).
  destruct ok; eauto.
Qed.

Lemma extend_allocation_total fuel ptr o n s h :
  layout_ok s -> pages_left s < Z.of_nat fuel ->
  exists r, extend_allocation K slot_size fuel ptr o n s h = Some r.
Proof.
  intros L B. unfold extend_allocation.
  destruct (ptr =? nullptr); [eauto | ].
  destruct (begin_gp s =? nullptr); [eauto | ].
  destruct (free_slots_left s <? u64 (n - o)); [eauto | ].
  destruct (negb (slot_add slot_size ptr o =? frontier slot_size s));
    [eauto | ].
  destruct (checked_range_commit_total fuel
              (u64 (slot_add slot_size (frontier slot_size s) (u64 (n - o))
                    - 1)) s h L B)
    as ([[ok s1] h1] & ->).
  destruct ok; eauto.
Qed.

End Termination.

(** ** The commit frontier under the arena's operations *)

Section Frontier.

Variable K : kernel.
Variable slot_size : Z.

Lemma layout_set_slots s occ free :
  layout_ok s -> layout_ok (set_slots s occ free).
Proof. intros []. constructor; assumption. Qed.

Lemma forward_refl s h : layout_ok s -> forward s h s h.
Proof.
  intros L. unfold forward. conjs; auto using incl_refl. lia.
Qed.

Lemma forward_trans s1 h1 s2 h2 s3 h3 :
  forward s1 h1 s2 h2 -> forward s2 h2 s3 h3 -> forward s1 h1 s3 h3.
Proof.
  intros (_ & F1 & I1 & M1 & E1 & P1) (L & F2 & I2 & M2 & E2 & P2).
  unfold forward.
  conjs; eauto using incl_tran; [lia | congruence | congruence | congruence].
Qed.

(** Moving the counters leaves an arena where it is. *)
Lemma forward_set_slots s h s' h' occ free :
  forward s h s' h' -> forward s h (set_slots s' occ free) h'.
Proof.
  intros (L & F & I & M & E & P). unfold forward. pool_simpl.
  conjs; auto using layout_set_slots.
Qed.

(** The loop needs no more iterations after an operation than before. *)
Lemma forward_pages_left s h s' h' :
  forward s h s' h' -> pages_left s' <= pages_left s.
Proof.
  intros (L & F & _ & _ & E & P). unfold pages_left. rewrite E, P.
  apply Z.div_le_mono; [ rewrite <- P; destruct L; lia | lia ].
Qed.

Lemma checked_range_commit_forward fuel pg s h ok s' h' :
  layout_ok s ->
  checked_range_commit K fuel pg s h = Some (ok, s', h') ->
  forward s h s' h'.
Proof.
  intros L E.
  destruct (checked_range_commit_spec _ _ _ _ _ _ _ _ L E)
    as (L' & A & M & I & _).
  destruct (advanced_fields _ _ A) as (_ & Ee & _ & _ & _ & Ep & _).
  destruct A as [_ A]. unfold forward. auto 10.
Qed.

Lemma get_allocation_forward fuel n s h p s' h' :
  layout_ok s ->
  get_allocation K slot_size fuel n s h = Some (p, s', h') ->
  forward s h s' h'.
Proof.
  intros L.
  rewrite get_allocation_initialized by (destruct L; unfold nullptr; lia).
  destruct (free_slots_left s <? n).
  { intros E. injection E as <- <- <-. apply forward_refl, L. }
  destruct (checked_range_commit K fuel _ s h) as [[[ok s2] h2] | ] eqn:R;
    [ | discriminate ].
  pose proof (checked_range_commit_forward _ _ _ _ _ _ _ L R) as F.
  destruct ok; intros E; injection E as <- <- <-;
    [ apply forward_set_slots | ]; exact F.
Qed.

Lemma extend_allocation_forward fuel ptr o n s h ok s' h' :
  layout_ok s ->
  extend_allocation K slot_size fuel ptr o n s h = Some (ok, s', h') ->
  forward s h s' h'.
Proof.
  intros L. unfold extend_allocation.
  destruct (ptr =? nullptr);
    [ intros E; injection E as <- <- <-; apply forward_refl, L | ].
  destruct (begin_gp s =? nullptr);
    [ intros E; injection E as <- <- <-; apply forward_refl, L | ].
  destruct (free_slots_left s <? u64 (n - o));
    [ intros E; injection E as <- <- <-; apply forward_refl, L | ].
  destruct (negb (slot_add slot_size ptr o =? frontier slot_size s));
    [ intros E; injection E as <- <- <-; apply forward_refl, L | ].
  destruct (checked_range_commit K fuel _ s h) as [[[ok2 s2] h2] | ] eqn:R;
    [ | discriminate ].
  pose proof (checked_range_commit_forward _ _ _ _ _ _ _ L R) as F.
  destruct ok2; intros E; injection E as <- <- <-;
    [ apply forward_set_slots | ]; exact F.
Qed.

Lemma delete_allocation_forward ptr n s h :
  layout_ok s -> forward s h (snd (delete_allocation ptr n s)) h.
Proof.
  intros L. unfold delete_allocation.
  destruct (ptr =? nullptr); [apply forward_refl, L | ].
  destruct (begin_gp s =? nullptr); [apply forward_refl, L | ].
  apply forward_set_slots, forward_refl, L.
Qed.

(** A second [init_pool] is refused and changes nothing. *)
Lemma init_pool_initialized pgs s h :
  layout_ok s -> init_pool K slot_size pgs s h = (false, s, h).
Proof.
  intros L. unfold init_pool.
  assert (P : (pagesize s =? 0) = false)
    by (apply Z.eqb_neq; destruct L; lia).
  rewrite P, (layout_not_null s L). reflexivity.
Qed.

Lemma run_op_forward fuel o s h s' h' :
  layout_ok s -> run_op K slot_size fuel o s h = Some (s', h') ->
  forward s h s' h'.
Proof.
  intros L. destruct o as [n | ptr o n | ptr n | v | pg | pgs]; simpl.
  - destruct (get_allocation K slot_size fuel n s h)
      as [[[p s1] h1] | ] eqn:E; [ | discriminate ].
    intros X. injection X as <- <-.
    eapply get_allocation_forward; eauto.
  - destruct (extend_allocation K slot_size fuel ptr o n s h)
      as [[[p s1] h1] | ] eqn:E; [ | discriminate ].
    intros X. injection X as <- <-.
    eapply extend_allocation_forward; eauto.
  - intros X. injection X as <- <-. apply delete_allocation_forward, L.
  - intros X. injection X as <- <-. apply forward_refl, L.
  - destruct (checked_range_commit K fuel pg s h)
      as [[[p s1] h1] | ] eqn:E; [ | discriminate ].
    intros X. injection X as <- <-.
    eapply checked_range_commit_forward; eauto.
  - rewrite init_pool_initialized by exact L.
    intros X. injection X as <- <-. apply forward_refl, L.
Qed.

Lemma run_ops_forward fuel os : forall s h s' h',
  layout_ok s -> run_ops K slot_size fuel os s h = Some (s', h') ->
  forward s h s' h'.
Proof.
  induction os as [ | o os IH ]; intros s h s' h' L; simpl.
  - intros X. injection X as <- <-. apply forward_refl, L.
  - destruct (run_op K slot_size fuel o s h) as [[s1 h1] | ] eqn:E;
      [ | discriminate ].
    intros R. pose proof (run_op_forward _ _ _ _ _ _ L E) as F1.
    eapply forward_trans; [exact F1 | ].
    apply IH; [ apply F1 | exact R ].
Qed.

(** With fuel for the pages left, every operation returns. *)
Lemma run_op_total fuel o s h :
  layout_ok s -> pages_left s < Z.of_nat fuel ->
  exists r, run_op K slot_size fuel o s h = Some r.
Proof.
  intros L B. destruct o as [n | ptr o n | ptr n | v | pg | pgs]; simpl;
    eauto.
  - destruct (get_allocation_total K slot_size fuel n s h L B)
      as ([[p s1] h1] & ->). eauto.
  - destruct (extend_allocation_total K slot_size fuel ptr o n s h L B)
      as ([[p s1] h1] & ->). eauto.
  - destruct (checked_range_commit_total K fuel pg s h L B)
      as ([[p s1] h1] & ->). eauto.
  - destruct (init_pool K slot_size pgs s h) as [[ok s1] h1]. eauto.
Qed.

Lemma run_ops_total fuel os : forall s h,
  layout_ok s -> pages_left s < Z.of_nat fuel ->
  exists r, run_ops K slot_size fuel os s h = Some r.
Proof.
  induction os as [ | o os IH ]; intros s h L B; simpl; [eauto | ].
  destruct (run_op_total fuel o s h L B) as ([s1 h1] & E). rewrite E.
  pose proof (run_op_forward _ _ _ _ _ _ L E) as F.
  apply IH; [ apply F | ].
  pose proof (forward_pages_left _ _ _ _ F). lia.
Qed.

End Frontier.

(** ** Bump allocation *)

Section Bump.

Variable K : kernel.
Variable slot_size : Z.
Hypothesis slot_size_pos : 0 < slot_size.

(** Along a sequence of requests the arena stays well formed, its region
    stays where it is, and [occupied_slots] grows by the slots handed
    out. *)
Lemma get_allocations_spec fuel ns : forall s h ps s' h',
  pool_inv slot_size s -> Forall (fun n => 0 <= n) ns ->
  get_allocations K slot_size fuel ns s h = Some (ps, s', h') ->
  pool_inv slot_size s' /\ length ps = length ns /\
  allocation_area s' = allocation_area s /\
  occupied_slots s' = occupied_slots s + granted_slots ns ps /\
  0 <= granted_slots ns ps.
Proof.
  induction ns as [ | n ns IH ]; intros s h ps s' h' I N; simpl.
  - intros E. injection E as <- <- <-. simpl. conjs; auto; lia.
  - destruct (get_allocation K slot_size fuel n s h)
      as [[[p s1] h1] | ] eqn:G; [ | discriminate ].
    destruct (get_allocations K slot_size fuel ns s1 h1)
      as [[[ps1 s2] h2] | ] eqn:R; [ | discriminate ].
    intros E. injection E as <- <- <-.
    inversion N as [ | ? ? N0 N1 ]; subst.
    destruct (get_allocation_spec _ _ slot_size_pos _ _ _ _ _ _ _ I N0 G)
      as (I1 & _ & _ & _ & D).
    destruct (IH _ _ _ _ _ I1 N1 R) as (I2 & Len & Ea & Eo & Gp).
    simpl. rewrite Ea, Eo.
    destruct D as [[-> A] | (Nn & _ & _ & s3 & A & ->)].
    + destruct (advanced_fields _ _ A) as (_ & _ & Ea1 & Eo1 & _).
      rewrite Ea1, Eo1. simpl. conjs; auto; lia.
    + destruct (advanced_fields _ _ A) as (_ & _ & Ea1 & Eo1 & _).
      apply Z.eqb_neq in Nn. rewrite Nn. pool_simpl.
      conjs; auto; lia.
Qed.

(** The address of every successful allocation of a sequence. *)
Lemma get_allocations_address fuel ns : forall s h ps s' h' k p,
  pool_inv slot_size s -> Forall (fun n => 0 <= n) ns ->
  get_allocations K slot_size fuel ns s h = Some (ps, s', h') ->
  nth_error ps k = Some p -> p <> nullptr ->
  p = allocation_area s
      + slot_size * (occupied_slots s
                     + granted_slots (firstn k ns) (firstn k ps)).
Proof.
  induction ns as [ | n ns IH ]; intros s h ps s' h' k p I N; simpl.
  - intros E. injection E as <- <- <-. destruct k; discriminate.
  - destruct (get_allocation K slot_size fuel n s h)
      as [[[q s1] h1] | ] eqn:G; [ | discriminate ].
    destruct (get_allocations K slot_size fuel ns s1 h1)
      as [[[ps1 s2] h2] | ] eqn:R; [ | discriminate ].
    intros E. injection E as <- <- <-.
    inversion N as [ | ? ? N0 N1 ]; subst.
    destruct (get_allocation_spec _ _ slot_size_pos _ _ _ _ _ _ _ I N0 G)
      as (I1 & _ & _ & _ & D).
    destruct k as [ | k ]; simpl.
    + intros X Nn. injection X as ->.
      destruct D as [[-> _] | (_ & _ & -> & _)]; [congruence | ring].
    + intros X Nn.
      rewrite (IH _ _ _ _ _ _ _ I1 N1 R X Nn).
      destruct D as [[-> A] | (Nq & _ & _ & s3 & A & ->)];
        destruct (advanced_fields _ _ A) as (_ & _ & Ea1 & Eo1 & _).
      * rewrite Ea1, Eo1. simpl. ring.
      * apply Z.eqb_neq in Nq. rewrite Nq. pool_simpl.
        rewrite Ea1. ring.
Qed.

End Bump.

(** When every request of a sequence succeeds, the slots handed out are the
    slots requested. *)
Lemma granted_all ns : forall ps,
  length ps = length ns -> Forall (fun p => p <> nullptr) ps ->
  granted_slots ns ps = fold_right Z.add 0 ns.
Proof.
  induction ns as [ | n ns IH ]; intros [ | p ps ] L F; simpl in *;
    try reflexivity; try discriminate.
  inversion F as [ | ? ? F0 F1 ]; subst.
  apply Z.eqb_neq in F0. rewrite F0, IH; auto.
Qed.

(** ** A host that grants every commit *)

Section Generous.

Variable K : kernel.
Variable slot_size : Z.
Hypothesis granted : generous K.

(** At the frontier, inside the usable region, [commit_page] succeeds. *)
Lemma commit_page_granted s h :
  layout_ok s -> coupled K s h -> first_not_commited s <= end_gp s ->
  exists h',
    commit_page K (first_not_commited s) s h
    = (true, set_first_not_commited s (first_not_commited s + pagesize s), h')
    /\ coupled K (set_first_not_commited s
                     (first_not_commited s + pagesize s)) h'.
Proof.
  intros L C B.
  destruct (commit_page K (first_not_commited s) s h) as [[ok s'] h'] eqn:E.
  destruct (commit_page_spec _ _ _ _ _ _ _ L E) as (M & _ & _ & Ht).
  assert (O : ok = true).
  { revert E. unfold commit_page.
    rewrite (layout_page_u64 s L).
    assert (G : u64 (begin_gp s + pagesize s) = allocation_area s)
      by (destruct L; rewrite u64_small; lia).
    rewrite G.
    destruct (Z.ltb_spec (first_not_commited s) (allocation_area s));
      [destruct L; lia | ].
    destruct (Z.ltb_spec (end_gp s) (first_not_commited s)); [lia | ].
    simpl. unfold mprotect.
    destruct C as [Cp Ca Cm]. rewrite <- Cp, Ca. simpl.
    assert (X : existsb (inside (first_not_commited s) (pagesize s))
                        (mappings h) = true).
    { apply existsb_exists. eexists. split; [exact Cm | ].
      unfold inside. simpl. destruct L.
      apply andb_true_iff. split; apply Z.leb_le; lia. }
    rewrite X, granted. simpl. intros Y. injection Y as <- _ _. reflexivity. }
  subst ok. destruct (Ht eq_refl) as (_ & A & ->).
  exists h'. split; [reflexivity | ].
  destruct C as [Cp Ca Cm]. constructor; pool_simpl.
  - exact Cp.
  - replace (first_not_commited s + pagesize s)
      with (first_not_commited s + 1 * pagesize s) by ring.
    rewrite Z.mod_add by (destruct L; lia). exact Ca.
  - rewrite M. exact Cm.
Qed.

(** The commit loop reaches every end address inside the usable region. *)
Lemma commit_loop_granted fuel : forall pg s h,
  layout_ok s -> coupled K s h -> pg <= end_gp s ->
  pages_left s < Z.of_nat fuel ->
  exists s' h',
    commit_loop K fuel pg (first_not_commited s) s h = Some (true, s', h') /\
    coupled K s' h'.
Proof.
  induction fuel as [ | fuel IH ]; intros pg s h L C B F.
  - pose proof (pages_left_nonneg s L). simpl in F. lia.
  - simpl. destruct (Z.ltb_spec (first_not_commited s) pg); [ | eauto ].
    destruct (commit_page_granted s h L C) as (h1 & -> & C1); [lia | ].
    pool_simpl. rewrite (layout_page_u64 s L).
    rewrite u64_small by (destruct L; lia).
    set (s1 := set_first_not_commited s (first_not_commited s + pagesize s))
      in *.
    assert (L1 : layout_ok s1).
    { destruct L. constructor; unfold s1; pool_simpl; lia. }
    apply (IH pg s1 h1 L1 C1); [exact B | ].
    unfold s1. rewrite pages_left_step by exact L. lia.
Qed.

Lemma checked_range_commit_granted fuel pg s h :
  layout_ok s -> coupled K s h -> pg <= end_gp s ->
  pages_left s < Z.of_nat fuel ->
  exists s' h',
    checked_range_commit K fuel pg s h = Some (true, s', h') /\
    coupled K s' h'.
Proof.
  intros L C B F. unfold checked_range_commit.
  destruct (first_not_commited s <? pg); [ | eauto ].
  apply commit_loop_granted; assumption.
Qed.

Hypothesis slot_size_pos : 0 < slot_size.

(** The last byte of [d] more slots, [d] of them free, is below the
    trailing guard page. *)
Lemma end_byte_inside s d :
  pool_inv slot_size s -> 0 <= d <= free_slots_left s ->
  u64 (slot_add slot_size (frontier slot_size s) d - 1) <= end_gp s.
Proof.
  intros I D. pose proof (capacity_bytes _ slot_size_pos s I) as Cb.
  destruct (frontier_exact _ slot_size_pos s I) as [Fe Fr].
  destruct I as [[] O F _].
  assert (0 <= d * slot_size
          <= (occupied_slots s + free_slots_left s) * slot_size
             - occupied_slots s * slot_size) by nia.
  unfold slot_add. rewrite Fe.
  rewrite (u64_small (allocation_area s + occupied_slots s * slot_size
                      + d * slot_size)) by lia.
  rewrite u64_small by lia. lia.
Qed.

(** On such a host a request within the free slots is always granted. *)
Lemma get_allocation_granted fuel n s h :
  pool_inv slot_size s -> coupled K s h -> 0 <= n <= free_slots_left s ->
  pages_left s < Z.of_nat fuel ->
  exists s' h',
    get_allocation K slot_size fuel n s h
    = Some (allocation_area s + occupied_slots s * slot_size, s', h') /\
    allocation_area s + occupied_slots s * slot_size <> nullptr /\
    coupled K s' h'.
Proof.
  intros I C N F.
  assert (L : layout_ok s) by (destruct I; assumption).
  rewrite get_allocation_initialized by (destruct L; unfold nullptr; lia).
  destruct (Z.ltb_spec (free_slots_left s) n); [lia | ].
  destruct (checked_range_commit_granted fuel
              (u64 (slot_add slot_size (frontier slot_size s) n - 1)) s h L C
              (end_byte_inside s n I N) F) as (s1 & h1 & R & C1).
  rewrite R.
  destruct (checked_range_commit_spec _ _ _ _ _ _ _ _ L R) as (_ & A & _).
  rewrite (advanced_frontier _ _ _ A).
  destruct (frontier_exact _ slot_size_pos s I) as [Fe Fr].
  rewrite Fe. do 2 eexists. split; [reflexivity | ].
  split; [ unfold nullptr; destruct L; lia | ].
  destruct C1 as [Cp Ca Cm]. constructor; assumption.
Qed.

(** On such a host the trailing block can always be extended into the free
    slots. *)
Lemma extend_allocation_granted fuel ptr o n s h :
  pool_inv slot_size s -> coupled K s h -> ptr <> nullptr ->
  u64 (n - o) <= free_slots_left s ->
  pages_left s < Z.of_nat fuel ->
  slot_add slot_size ptr o = frontier slot_size s ->
  exists s' h',
    extend_allocation K slot_size fuel ptr o n s h = Some (true, s', h') /\
    coupled K s' h'.
Proof.
  intros I C P D F Eq.
  assert (L : layout_ok s) by (destruct I; assumption).
  unfold extend_allocation.
  apply Z.eqb_neq in P. rewrite P, (layout_not_null s L).
  destruct (Z.ltb_spec (free_slots_left s) (u64 (n - o))); [lia | ].
  apply Z.eqb_eq in Eq. rewrite Eq. simpl.
  pose proof (u64_range (n - o)) as U.
  destruct (checked_range_commit_granted fuel
              (u64 (slot_add slot_size (frontier slot_size s) (u64 (n - o))
                    - 1)) s h L C
              (end_byte_inside s (u64 (n - o)) I (conj (proj1 U) D)) F)
    as (s1 & h1 & -> & C1).
  do 2 eexists. split; [reflexivity | ].
  destruct C1 as [Cp Ca Cm]. constructor; assumption.
Qed.

End Generous.

(** ** Extension in place *)

Section Extension.

Variable K : kernel.
Variable slot_size : Z.

Lemma slot_add_wrapped p a b :
  slot_add slot_size p (a + u64 b) = slot_add slot_size p (a + b).
Proof.
  rewrite <- !slot_add_add. apply slot_add_u64.
Qed.

(** With a non-null pointer, an initialized arena and enough free slots,
    the call is the comparison with the frontier followed by the range
    commit. *)
Lemma extend_allocation_checked fuel ptr o n s h :
  ptr <> nullptr -> begin_gp s <> nullptr ->
  u64 (n - o) <= free_slots_left s ->
  extend_allocation K slot_size fuel ptr o n s h =
  if slot_add slot_size ptr o =? frontier slot_size s then
    match checked_range_commit K fuel
            (u64 (slot_add slot_size (frontier slot_size s) (u64 (n - o))
                  - 1)) s h
    with
    | None => None
    | Some (false, s1, h1) => Some (false, s1, h1)
    | Some (true, s1, h1) =>
        Some (true,
              set_slots s1 (u64 (occupied_slots s1 + u64 (n - o)))
                           (u64 (free_slots_left s1 - u64 (n - o))),
              h1)
    end
  else Some (false, s, h).
Proof.
  intros P B F. unfold extend_allocation.
  apply Z.eqb_neq in P, B. apply Z.ltb_ge in F. rewrite P, B, F.
  destruct (slot_add slot_size ptr o =? frontier slot_size s); reflexivity.
Qed.

Hypothesis slot_size_pos : 0 < slot_size.

Lemma pool_inv_not_null s : pool_inv slot_size s -> begin_gp s <> nullptr.
Proof. intros [[] _ _ _]. unfold nullptr. lia. Qed.

Lemma extend_allocation_success_iff fuel ptr o n s h s' h' :
  pool_inv slot_size s -> ptr <> nullptr ->
  u64 (n - o) <= free_slots_left s ->
  extend_allocation K slot_size fuel ptr o n s h = Some (true, s', h') <->
  slot_add slot_size ptr o = frontier slot_size s /\
  exists s1,
    checked_range_commit K fuel
      (u64 (slot_add slot_size (frontier slot_size s) (u64 (n - o)) - 1)) s h
    = Some (true, s1, h') /\
    s' = set_slots s1 (occupied_slots s + u64 (n - o))
                      (free_slots_left s - u64 (n - o)).
Proof.
  intros I P F.
  assert (L : layout_ok s) by (destruct I; assumption).
  rewrite (extend_allocation_checked fuel ptr o n s h P
             (pool_inv_not_null s I) F).
  destruct (Z.eqb_spec (slot_add slot_size ptr o) (frontier slot_size s))
    as [Eq | Ne].
  2:{ split; [discriminate | intros [X _]; contradiction ]. }
  destruct (checked_range_commit K fuel _ s h) as [[[ok s1] h1] | ] eqn:R.
  2:{ split; [discriminate | intros (_ & s1 & X & _); discriminate ]. }
  destruct (checked_range_commit_spec _ _ _ _ _ _ _ _ L R)
    as (L1 & A & _).
  pose proof (pool_inv_advanced _ _ _ I L1 A) as I1.
  destruct (advanced_fields _ _ A) as (_ & _ & _ & Eo & Ef & _).
  destruct (pool_inv_bump _ slot_size_pos s1 (u64 (n - o)) I1)
    as (_ & U1 & U2).
  { pose proof (u64_range (n - o)). lia. }
  destruct ok.
  - rewrite U1, U2, Eo, Ef. split.
    + intros X. injection X as <- <-. split; [exact Eq | ]. eauto.
    + intros (_ & s2 & X & ->). injection X as <- <-. reflexivity.
  - split; [discriminate | intros (_ & s2 & X & _); discriminate ].
Qed.

(** The block a successful [get_allocation] returns ends at the bump
    frontier. *)
Lemma get_allocation_trailing fuel n s h p s' h' :
  pool_inv slot_size s -> 0 <= n ->
  get_allocation K slot_size fuel n s h = Some (p, s', h') ->
  p <> nullptr ->
  slot_add slot_size p n = frontier slot_size s' /\
  frontier slot_size s' = p + n * slot_size /\
  allocation_area s' = allocation_area s /\
  occupied_slots s' = occupied_slots s + n.
Proof.
  intros I N G Nn.
  destruct (get_allocation_spec _ _ slot_size_pos _ _ _ _ _ _ _ I N G)
    as (I' & _ & _ & _ & [[-> _] | (_ & _ & Ep & s2 & A & Es)]);
    [congruence | ].
  destruct (advanced_fields _ _ A) as (_ & _ & Ea & _).
  destruct (frontier_exact _ slot_size_pos s' I') as [Fe Fr].
  assert (Ea' : allocation_area s' = allocation_area s)
    by (rewrite Es; exact Ea).
  assert (Eo' : occupied_slots s' = occupied_slots s + n)
    by (rewrite Es; reflexivity).
  assert (X : frontier slot_size s' = p + n * slot_size).
  { rewrite Fe, Ea', Eo', Ep. ring. }
  conjs; auto. unfold slot_add. rewrite <- X.
  apply u64_small. destruct I' as [[] _ _ _]. lia.
Qed.

(** After a successful extension the block still starts where it did and
    ends at the new frontier, where the next allocation starts. *)
Lemma extend_allocation_success fuel ptr o n s h s' h' :
  pool_inv slot_size s -> ptr <> nullptr ->
  u64 (n - o) <= free_slots_left s ->
  extend_allocation K slot_size fuel ptr o n s h = Some (true, s', h') ->
  pool_inv slot_size s' /\
  allocation_area s' = allocation_area s /\
  occupied_slots s' = occupied_slots s + u64 (n - o) /\
  free_slots_left s' = free_slots_left s - u64 (n - o) /\
  frontier slot_size s' = slot_add slot_size ptr n.
Proof.
  intros I P F E.
  assert (L : layout_ok s) by (destruct I; assumption).
  apply (extend_allocation_success_iff fuel ptr o n s h s' h' I P F) in E.
  destruct E as (Eq & s1 & R & ->).
  destruct (checked_range_commit_spec _ _ _ _ _ _ _ _ L R)
    as (L1 & A & _).
  pose proof (pool_inv_advanced _ _ _ I L1 A) as I1.
  destruct (advanced_fields _ _ A) as (_ & _ & Ea & Eo & Ef & _).
  destruct (pool_inv_bump _ slot_size_pos s1 (u64 (n - o)) I1)
    as (I' & U1 & U2).
  { pose proof (u64_range (n - o)). lia. }
  rewrite U1, U2, Eo, Ef in I'.
  conjs; auto.
  unfold frontier. pool_simpl. rewrite Ea, <- slot_add_add.
  fold (frontier slot_size s). rewrite <- Eq, slot_add_add.
  rewrite slot_add_wrapped. f_equal. ring.
Qed.

End Extension.

(** ** Ownership *)

Lemma owns_layout s val : layout_ok s -> owns s val = false.
Proof.
  intros [? ? ? ? ? ?]. unfold owns.
  destruct (Z.ltb_spec (allocation_area s) val);
    destruct (Z.ltb_spec val (begin_gp s)); simpl; auto; lia.
Qed.

(** ** Initialization on a host that grants *)

(** The pages of a range of one page. *)
Lemma pages_of_one ps a : 0 < ps -> pages_of ps a ps = [a].
Proof.
  intros P. unfold pages_of.
  replace (ps + ps - 1) with (1 * ps + (ps - 1)) by ring.
  rewrite Z.div_add_l by lia. rewrite Z.div_small by lia.
  simpl. f_equal. ring.
Qed.

Section InitGranted.

Variable K : kernel.
Variable slot_size : Z.
Hypothesis granted : generous K.

(** Given the mapping, [init_pool] succeeds when it has at least two
    pages, and what it leaves depends on the pool it started from through
    its page size only. *)
Lemma init_pool_granted pgs s h h1 a :
  pagesize s = 0 \/ pagesize s = page_size K -> begin_gp s = nullptr ->
  0 < page_size K -> 2 <= pages_to_map pgs ->
  pages_to_map pgs * page_size K < two64 ->
  mmap K h (pages_to_map pgs * page_size K) = (h1, a) -> a <> MAP_FAILED ->
  init_pool K slot_size pgs s h
  = (true, fresh_arena slot_size a (pages_to_map pgs) (page_size K),
     with_page h1 (a + page_size K)).
Proof.
  intros Ps B Pp N W M F.
  set (n := pages_to_map pgs) in *. set (ps := page_size K) in *.
  destruct (mmap_spec _ _ _ _ _ M F) as (Ml & Ma & Mt & Mal & Mm).
  assert (T : user_top < two64) by reflexivity.
  unfold init_pool.
  set (s1 := if pagesize s =? 0 then snd (set_pagesize K s) else s).
  assert (P1 : pagesize s1 = ps).
  { unfold s1. destruct (Z.eqb_spec (pagesize s) 0) as [Z0 | Nz];
      [reflexivity | destruct Ps; congruence]. }
  assert (B1 : begin_gp s1 = nullptr).
  { unfold s1. destruct (pagesize s =? 0); exact B. }
  rewrite P1, B1.
  replace (ps =? -1) with false by (symmetry; apply Z.eqb_neq; lia).
  rewrite andb_false_r. simpl negb. cbv iota.
  fold n. rewrite (u64_small ps) by nia.
  rewrite (u64_small (n * ps)) by nia. rewrite M.
  apply Z.eqb_neq in F. rewrite F. apply Z.eqb_neq in F.
  unfold laid_out, commit_page. pool_simpl. rewrite P1.
  rewrite (u64_small ps) by nia.
  rewrite (u64_small (n - 1)) by nia.
  rewrite (u64_small ((n - 1) * ps)) by nia.
  rewrite (u64_small (a + ps)) by nia.
  rewrite (u64_small (a + (n - 1) * ps)) by nia.
  rewrite (u64_small (n * ps)) by nia.
  rewrite (u64_small (2 * ps)) by nia.
  rewrite (u64_small (n * ps - 2 * ps)) by nia.
  rewrite (u64_small (a + ps + ps)) by nia.
  rewrite Z.ltb_irrefl.
  destruct (Z.ltb_spec (a + (n - 1) * ps) (a + ps)); [nia | ]. simpl orb.
  cbv iota. unfold mprotect. fold ps.
  replace ((a + ps) mod ps) with 0.
  2:{ replace (a + ps) with (a + 1 * ps) by ring.
      rewrite Z.mod_add by lia. symmetry. exact Mal. }
  simpl negb. cbv iota. rewrite Mm.
  assert (In0 : inside (a + ps) ps (a, n * ps) = true).
  { unfold inside. simpl. apply andb_true_iff.
    split; apply Z.leb_le; nia. }
  cbn [existsb]. rewrite In0. simpl orb. simpl negb. cbv iota.
  rewrite granted. simpl negb. cbv iota.
  rewrite pages_of_one by exact Pp. simpl Z.eqb. cbv iota.
  unfold fresh_arena, with_page, set_first_not_commited. pool_simpl.
  rewrite Mm. replace ((n - 2) * ps) with (n * ps - 2 * ps) by ring.
  reflexivity.
Qed.

End InitGranted.

(** ** The scenario arena *)

Lemma arena4_inv : pool_inv 8 arena4.
Proof. inv_by_computation. Qed.

(** * The properties of the specification *)

(** ** C1: extension in place *)

(** C1, as the code has it.  On a well-formed initialized arena, with a
    non-null pointer and enough free slots for the delta, [extend_allocation]
    returns (given enough fuel for the commit loop), and it returns [true]
    exactly when [ptr + old_nmbr] is the bump frontier and the range commit
    up to the new end byte succeeds; on a host that grants every commit
    the frontier condition alone decides.  On success the region and the
    block stay where they are, [occupied_slots] and [free_slots_left] move
    by the delta (which is [new_nmbr - old_nmbr] when the count grows), the
    block ends at the new frontier [ptr + new_nmbr], and the next successful
    allocation returns that address.  For a pointer obtained from
    [get_allocation] and followed by allocations only, the frontier
    condition holds as long as these handed out no slot; once they have
    handed out at least one, the extension is refused and nothing
    changes. *)
Theorem extend_allocation_in_place K slot_size fuel ptr old_nmbr new_nmbr s h :
  0 < slot_size -> pool_inv slot_size s -> ptr <> nullptr ->
  u64 (new_nmbr - old_nmbr) <= free_slots_left s ->
  (pages_left s < Z.of_nat fuel ->
   exists r,
     extend_allocation K slot_size fuel ptr old_nmbr new_nmbr s h = Some r) /\
  (forall s' h',
     extend_allocation K slot_size fuel ptr old_nmbr new_nmbr s h
     = Some (true, s', h') <->
     slot_add slot_size ptr old_nmbr = frontier slot_size s /\
     exists s1,
       checked_range_commit K fuel
         (u64 (slot_add slot_size (frontier slot_size s)
                        (u64 (new_nmbr - old_nmbr)) - 1)) s h
       = Some (true, s1, h') /\
       s' = set_slots s1 (occupied_slots s + u64 (new_nmbr - old_nmbr))
                         (free_slots_left s - u64 (new_nmbr - old_nmbr))) /\
  (generous K -> coupled K s h -> pages_left s < Z.of_nat fuel ->
   ((exists s' h',
       extend_allocation K slot_size fuel ptr old_nmbr new_nmbr s h
       = Some (true, s', h')) <->
    slot_add slot_size ptr old_nmbr = frontier slot_size s)) /\
  (forall s' h',
     extend_allocation K slot_size fuel ptr old_nmbr new_nmbr s h
     = Some (true, s', h') ->
     allocation_area s' = allocation_area s /\
     occupied_slots s' = occupied_slots s + u64 (new_nmbr - old_nmbr) /\
     free_slots_left s' = free_slots_left s - u64 (new_nmbr - old_nmbr) /\
     (0 <= old_nmbr <= new_nmbr -> new_nmbr < two64 ->
      u64 (new_nmbr - old_nmbr) = new_nmbr - old_nmbr) /\
     frontier slot_size s' = slot_add slot_size ptr new_nmbr /\
     forall fuel' c p s'' h'',
       0 <= c ->
       get_allocation K slot_size fuel' c s' h' = Some (p, s'', h'') ->
       p <> nullptr -> p = slot_add slot_size ptr new_nmbr) /\
  (forall fuel0 s0 h0 ns ps s1 h1,
     pool_inv slot_size s0 -> 0 <= old_nmbr ->
     Forall (fun n => 0 <= n) ns ->
     get_allocation K slot_size fuel0 old_nmbr s0 h0 = Some (ptr, s1, h1) ->
     get_allocations K slot_size fuel0 ns s1 h1 = Some (ps, s, h) ->
     (granted_slots ns ps = 0 ->
      slot_add slot_size ptr old_nmbr = frontier slot_size s) /\
     (0 < granted_slots ns ps ->
      extend_allocation K slot_size fuel ptr old_nmbr new_nmbr s h
      = Some (false, s, h))).
Proof.
  intros Sl I P F.
  assert (L : layout_ok s) by (destruct I; assumption).
  conjs.
  - intros B. apply extend_allocation_total; assumption.
  - intros s' h'. apply extend_allocation_success_iff; assumption.
  - intros G C B. split.
    + intros (s' & h' & E).
      apply (extend_allocation_success_iff _ _ Sl _ _ _ _ _ _ _ _ I P F) in E.
      apply E.
    + intros Eq.
      destruct (extend_allocation_granted _ _ G Sl fuel ptr old_nmbr new_nmbr
                  s h I C P F B Eq) as (s' & h' & E & _).
      eauto.
  - intros s' h' E.
    destruct (extend_allocation_success _ _ Sl _ _ _ _ _ _ _ _ I P F E)
      as (I' & Ea & Eo & Ef & Fr).
    conjs; auto.
    + intros O N. apply u64_small. lia.
    + intros fuel' c p s'' h'' C G Nn.
      destruct (get_allocation_spec _ _ Sl _ _ _ _ _ _ _ I' C G)
        as (_ & _ & _ & _ & [[-> _] | (_ & _ & Ep & _)]); [congruence | ].
      rewrite <- Fr. destruct (frontier_exact _ Sl s' I') as [-> _].
      exact Ep.
  - intros fuel0 s0 h0 ns ps s1 h1 I0 O N G R.
    destruct (get_allocation_trailing _ _ Sl _ _ _ _ _ _ _ I0 O G P)
      as (T1 & _ & _ & _).
    destruct (get_allocation_spec _ _ Sl _ _ _ _ _ _ _ I0 O G) as (I1 & _).
    destruct (get_allocations_spec _ _ Sl _ _ _ _ _ _ _ I1 N R)
      as (_ & _ & Ea & Eo & Gp).
    destruct (frontier_exact _ Sl s I) as [Fs _].
    destruct (frontier_exact _ Sl s1 I1) as [F1 _].
    assert (X : frontier slot_size s
                = frontier slot_size s1 + granted_slots ns ps * slot_size).
    { rewrite Fs, F1, Ea, Eo. ring. }
    split.
    + intros Z0. rewrite X, Z0, T1. ring.
    + intros Gt.
      rewrite (extend_allocation_checked _ _ fuel ptr old_nmbr new_nmbr s h P
                 (pool_inv_not_null _ s I) F).
      destruct (Z.eqb_spec (slot_add slot_size ptr old_nmbr)
                           (frontier slot_size s)) as [Eq | Ne];
        [ | reflexivity ].
      rewrite X, T1 in Eq. nia.
Qed.

Lemma extend_allocation_in_place_witness :
  (exists r,
     extend_allocation linux 8 3 69632 10 20 (set_slots arena4 10 1014) host4
     = Some r) /\
  extend_allocation linux 8 3 69632 10 20 (set_slots arena4 10 1014) host4
  = Some (true, set_slots arena4 20 1004, host4) /\
  get_allocation linux 8 3 5 (set_slots arena4 20 1004) host4
  = Some (69792, set_slots arena4 25 999, host4) /\
  69792 = slot_add 8 69632 20.
Proof.
  destruct (extend_allocation_in_place linux 8 3 69632 10 20
              (set_slots arena4 10 1014) host4) as (A & _ & _ & C & _);
    [ lia | inv_by_computation | discriminate | discriminate | ].
  split; [ apply A; reflexivity | ].
  split; [ reflexivity | ].
  split; [ reflexivity | ].
  destruct (C (set_slots arena4 20 1004) host4 eq_refl)
    as (_ & _ & _ & _ & _ & N).
  apply (N 3%nat 5 69792 (set_slots arena4 25 999) host4);
    [ lia | reflexivity | discriminate ].
Defined.

(** C1 as stated fails in three ways.  An allocation of zero slots
    succeeds without moving the frontier, so it can intervene and the
    extension still succeeds.  An intervening allocation does not block the
    extension for good either: once its slots are freed the frontier is back
    at the end of the older block.  And the frontier condition is not
    enough: on a host that refuses to commit a second page, the trailing
    block of 512 slots, which fills the first page, cannot be extended
    although 512 slots are free. *)
Lemma extend_allocation_counterexample :
  (get_allocation linux 8 0 10 arena4 host4
   = Some (69632, set_slots arena4 10 1014, host4) /\
   get_allocation linux 8 0 0 (set_slots arena4 10 1014) host4
   = Some (69712, set_slots arena4 10 1014, host4) /\
   69712 <> nullptr /\
   extend_allocation linux 8 0 69632 10 20 (set_slots arena4 10 1014) host4
   = Some (true, set_slots arena4 20 1004, host4)) /\
  (get_allocation linux 8 0 10 arena4 host4
   = Some (69632, set_slots arena4 10 1014, host4) /\
   get_allocation linux 8 0 5 (set_slots arena4 10 1014) host4
   = Some (69712, set_slots arena4 15 1009, host4) /\
   delete_allocation 69712 5 (set_slots arena4 15 1009)
   = (true, set_slots arena4 10 1014) /\
   extend_allocation linux 8 0 69632 10 20 (set_slots arena4 10 1014) host4
   = Some (true, set_slots arena4 20 1004, host4)) /\
  (init_pool (stingy 2) 8 4 empty_pool fresh_host = (true, arena4, host4) /\
   get_allocation (stingy 2) 8 1 512 arena4 host4
   = Some (69632, set_slots arena4 512 512, host4) /\
   slot_add 8 69632 512 = frontier 8 (set_slots arena4 512 512) /\
   u64 (513 - 512) <= free_slots_left (set_slots arena4 512 512) /\
   extend_allocation (stingy 2) 8 1 69632 512 513
     (set_slots arena4 512 512) host4
   = Some (false, set_slots arena4 512 512,
           mk_host [(65536, 16384)] [69632] 3)).
Proof. conjs; try discriminate; reflexivity. Qed.

(** ** C2: ownership of allocated blocks *)

(** C2, what the code does.  [owns] compares with [begin_gp], which lies
    below [allocation_area], so on an initialized arena it answers [false]
    for every address: for the first and the last byte of a block
    [get_allocation] has just returned as well as for the two guard
    pages. *)
Theorem owns_rejects_allocation K slot_size fuel n s h p s' h' :
  0 < slot_size -> pool_inv slot_size s -> 0 <= n ->
  get_allocation K slot_size fuel n s h = Some (p, s', h') ->
  p <> nullptr ->
  owns s' p = false /\ owns s' (p + n * slot_size - 1) = false /\
  owns s' (begin_gp s') = false /\ owns s' (end_gp s') = false.
Proof.
  intros Sl I N E _.
  destruct (get_allocation_spec _ _ Sl _ _ _ _ _ _ _ I N E) as ([L _ _ _] & _).
  conjs; apply owns_layout; exact L.
Qed.

Lemma owns_rejects_allocation_witness :
  get_allocation linux 8 0 10 arena4 host4
  = Some (69632, set_slots arena4 10 1014, host4) /\
  owns (set_slots arena4 10 1014) 69632 = false /\
  owns (set_slots arena4 10 1014) (69632 + 10 * 8 - 1) = false.
Proof.
  split; [reflexivity | ].
  destruct (owns_rejects_allocation linux 8 0 10 arena4 host4 69632
              (set_slots arena4 10 1014) host4) as (A & B & _);
    [ lia | inv_by_computation | lia | reflexivity | discriminate | ].
  split; [exact A | exact B].
Defined.

(** ** C3: bump addresses *)

(** C3, as the code has it.  On a freshly initialized arena, as long as
    nothing but allocations is requested, every successful allocation
    returns [allocation_area] plus the slot size times the slots handed out
    by the requests before it; when no request before it failed these are
    the slots requested before it, and in particular the second of two
    successful allocations starts [a * slot_size] bytes after the first. *)
Theorem bump_allocation_addresses K slot_size fuel pgs s h s0 h0 :
  0 < slot_size -> 0 <= pgs ->
  0 < pagesize s0 -> pages_to_map pgs * pagesize s0 < two64 ->
  init_pool K slot_size pgs s h = (true, s0, h0) ->
  (forall ns ps s' h' k p,
     Forall (fun n => 0 <= n) ns ->
     get_allocations K slot_size fuel ns s0 h0 = Some (ps, s', h') ->
     nth_error ps k = Some p -> p <> nullptr ->
     p = allocation_area s0
         + slot_size * granted_slots (firstn k ns) (firstn k ps) /\
     (Forall (fun q => q <> nullptr) (firstn k ps) ->
      p = allocation_area s0 + slot_size * fold_right Z.add 0 (firstn k ns))) /\
  (forall a b p1 s1 h1 p2 s2 h2,
     0 <= a -> 0 <= b ->
     get_allocation K slot_size fuel a s0 h0 = Some (p1, s1, h1) ->
     p1 <> nullptr ->
     get_allocation K slot_size fuel b s1 h1 = Some (p2, s2, h2) ->
     p2 <> nullptr ->
     p2 = p1 + a * slot_size).
Proof.
  intros Sl Pg Pp Pw E.
  destruct (init_pool_inv _ _ _ _ _ _ _ Sl Pg Pp Pw E) as (I & O & _).
  assert (A : forall ns ps s' h' k p,
     Forall (fun n => 0 <= n) ns ->
     get_allocations K slot_size fuel ns s0 h0 = Some (ps, s', h') ->
     nth_error ps k = Some p -> p <> nullptr ->
     p = allocation_area s0
         + slot_size * granted_slots (firstn k ns) (firstn k ps)).
  { intros ns ps s' h' k p N R X Nn.
    rewrite (get_allocations_address _ _ Sl _ _ _ _ _ _ _ _ _ I N R X Nn), O.
    reflexivity. }
  split.
  - intros ns ps s' h' k p N R X Nn. split; [eauto | ].
    intros Fa. rewrite (A _ _ _ _ _ _ N R X Nn). do 2 f_equal.
    apply granted_all; [ | exact Fa ].
    destruct (get_allocations_spec _ _ Sl _ _ _ _ _ _ _ I N R)
      as (_ & Len & _).
    rewrite !length_firstn, Len. reflexivity.
  - intros a b p1 s1 h1 p2 s2 h2 Na Nb G1 N1 G2 N2.
    assert (R : get_allocations K slot_size fuel [a; b] s0 h0
                = Some ([p1; p2], s2, h2)).
    { simpl. rewrite G1, G2. reflexivity. }
    assert (N : Forall (fun n => 0 <= n) [a; b]) by (repeat constructor; auto).
    pose proof (A _ _ _ _ 0%nat p1 N R eq_refl N1) as E1.
    pose proof (A _ _ _ _ 1%nat p2 N R eq_refl N2) as E2.
    simpl in E1, E2. apply Z.eqb_neq in N1. rewrite N1 in E2. lia.
Qed.

Lemma bump_allocation_addresses_witness :
  init_pool linux 8 4 empty_pool fresh_host = (true, arena4, host4) /\
  get_allocations linux 8 2 [10; 2000; 502; 5] arena4 host4
  = Some ([69632; 0; 69712; 73728],
          mk_pool 65536 77824 69632 77824 4 517 507 4096,
          mk_host [(65536, 16384)] [73728; 69632] 3) /\
  73728 = allocation_area arena4 + 8 * (10 + 0 + 502) /\
  69712 = 69632 + 10 * 8.
Proof.
  split; [reflexivity | ]. split; [reflexivity | ].
  destruct (bump_allocation_addresses linux 8 2 4 empty_pool fresh_host
              arena4 host4) as (A & B);
    [ lia | lia | reflexivity | reflexivity | reflexivity | ].
  split.
  - destruct (A [10; 2000; 502; 5] [69632; 0; 69712; 73728]
                (mk_pool 65536 77824 69632 77824 4 517 507 4096)
                (mk_host [(65536, 16384)] [73728; 69632] 3) 3%nat 73728)
      as (X & _);
      [ repeat constructor; lia | reflexivity | reflexivity | discriminate | ].
    exact X.
  - apply (B 10 502 69632 (set_slots arena4 10 1014) host4 69712
             (set_slots arena4 512 512) host4);
      [ lia | lia | reflexivity | discriminate | reflexivity | discriminate ].
Defined.

(** C3 as stated fails once a block is freed: the address is not the
    sum of the counts of all allocations made since the initialization.  On
    the four-page arena, an allocation of five slots, the free of these five
    slots, then an allocation of three slots: the second allocation gets the
    address of the first, not the address five slots further. *)
Lemma bump_allocation_reuse_counterexample :
  init_pool linux 8 4 empty_pool fresh_host = (true, arena4, host4) /\
  get_allocation linux 8 3 5 arena4 host4
  = Some (69632, set_slots arena4 5 1019, host4) /\
  delete_allocation 69632 5 (set_slots arena4 5 1019) = (true, arena4) /\
  get_allocation linux 8 3 3 arena4 host4
  = Some (69632, set_slots arena4 3 1021, host4) /\
  69632 <> allocation_area arena4 + 8 * 5.
Proof. conjs; try reflexivity; discriminate. Qed.

(** ** C4: failing allocations *)

(** C4, as the code has it.  On a well-formed initialized arena,
    [get_allocation] returns (given fuel for the pages left), it returns
    null whenever the count exceeds [free_slots_left], and whenever it
    returns null the two counters are what they were. *)
Theorem get_allocation_failure K slot_size fuel nmbr s h :
  0 < slot_size -> pool_inv slot_size s -> 0 <= nmbr ->
  (pages_left s < Z.of_nat fuel ->
   exists r, get_allocation K slot_size fuel nmbr s h = Some r) /\
  (free_slots_left s < nmbr ->
   get_allocation K slot_size fuel nmbr s h = Some (nullptr, s, h)) /\
  (forall s' h',
     get_allocation K slot_size fuel nmbr s h = Some (nullptr, s', h') ->
     occupied_slots s' = occupied_slots s /\
     free_slots_left s' = free_slots_left s).
Proof.
  intros Sl I N.
  assert (L : layout_ok s) by (destruct I; assumption).
  conjs.
  - intros B. apply get_allocation_total; assumption.
  - intros F. rewrite get_allocation_initialized.
    + apply Z.ltb_lt in F. rewrite F. reflexivity.
    + destruct L. unfold nullptr. lia.
  - intros s' h' E.
    destruct (get_allocation_spec _ _ Sl _ _ _ _ _ _ _ I N E)
      as (_ & _ & _ & _ & [[_ A] | [Nn _]]); [ | congruence ].
    destruct (advanced_fields _ _ A) as (_ & _ & _ & Eo & Ef & _). auto.
Qed.

Lemma get_allocation_failure_witness :
  get_allocation linux 8 0 1025 arena4 host4 = Some (nullptr, arena4, host4).
Proof.
  destruct (get_allocation_failure linux 8 0 1025 arena4 host4)
    as (_ & F & _); [ lia | inv_by_computation | lia | ].
  apply F. reflexivity.
Defined.

(** C4 as stated fails on an arena that is not initialized yet: a
    default-constructed pool has [free_slots_left = 0], and a request for
    five slots initializes it lazily and succeeds. *)
Lemma get_allocation_lazy_counterexample :
  free_slots_left empty_pool < 5 /\
  get_allocation linux 8 0 5 empty_pool fresh_host
  = Some (69632, mk_pool 65536 102400 69632 73728 10 5 4091 4096,
          mk_host [(65536, 40960)] [69632] 2) /\
  69632 <> nullptr.
Proof. conjs; try discriminate; reflexivity. Qed.

(** ** C5: the facade's ceiling *)

(** C5, as the code has it.  With a nonzero ceiling, [allocate] throws
    [bad_alloc] and leaves the arena and the host untouched whenever the
    count exceeds the theoretical maximum or [occupied_slots + 1] exceeds the
    ceiling; in every other case it returns what [get_allocation] returns. *)
Theorem allocate_ceiling K slot_size fuel n a h :
  objs_number a <> 0 ->
  (_M_max_size slot_size < n \/
   objs_number a < u64 (occupied_slots (_pool a) + 1) ->
   allocate K slot_size fuel n a h = Some (bad_alloc, a, h)) /\
  (n <= _M_max_size slot_size ->
   u64 (occupied_slots (_pool a) + 1) <= objs_number a ->
   allocate K slot_size fuel n a h
   = match get_allocation K slot_size fuel n (_pool a) h with
     | None => None
     | Some (p, s', h') =>
         Some (returned p, mk_allocator (objs_number a) s', h')
     end).
Proof.
  intros C. unfold allocate, max_size.
  apply Z.eqb_neq in C. rewrite C. split.
  - intros [M | O].
    + apply Z.ltb_lt in M. rewrite M. reflexivity.
    + apply Z.ltb_lt in O. rewrite O.
      destruct (_M_max_size slot_size <? n); reflexivity.
  - intros M O. apply Z.ltb_ge in M, O. rewrite M, O. reflexivity.
Qed.

Lemma allocate_ceiling_witness :
  allocate linux 8 0 1 (mk_allocator 10 (set_slots arena4 10 1014)) host4
  = Some (bad_alloc, mk_allocator 10 (set_slots arena4 10 1014), host4).
Proof.
  apply (allocate_ceiling linux 8 0 1
           (mk_allocator 10 (set_slots arena4 10 1014)) host4);
    [ discriminate | right; reflexivity ].
Defined.

(** C5 as stated fails: the count is never compared with the ceiling.  A
    facade with a ceiling of ten slots hands out twenty at once. *)
Lemma allocate_ceiling_counterexample :
  objs_number (mk_allocator 10 empty_pool) = 10 /\ 10 < 20 /\
  allocate linux 8 0 20 (mk_allocator 10 empty_pool) fresh_host
  = Some (returned 69632,
          mk_allocator 10 (mk_pool 65536 102400 69632 73728 10 20 4076 4096),
          mk_host [(65536, 40960)] [69632] 2).
Proof. conjs; reflexivity. Qed.

(** ** C6: free slots after initialization *)




(** ** C7: the commit frontier *)

(** C7, as the code has it.  On an initialized arena, every sequence of
    allocations, extensions, frees, ownership tests, range commits and
    (refused) re-initializations runs to its end, and along it the commit
    frontier never moves backward, no page loses its read/write access and
    the mapping stays; a range commit whose end address is at or below the
    frontier succeeds and changes nothing.  A page commit called on its own keeps every page accessible
    too, but it sets the frontier to one page past its argument, wherever
    the frontier was. *)
Theorem commit_frontier_monotone K slot_size fuel s h :
  layout_ok s ->
  (pages_left s < Z.of_nat fuel ->
   forall os, exists r, run_ops K slot_size fuel os s h = Some r) /\
  (forall os s' h',
     run_ops K slot_size fuel os s h = Some (s', h') ->
     layout_ok s' /\ first_not_commited s <= first_not_commited s' /\
     incl (rw_pages h) (rw_pages h') /\ mappings h' = mappings h) /\
  (forall pg, pg <= first_not_commited s ->
     checked_range_commit K fuel pg s h = Some (true, s, h)) /\
  (forall pg ok s' h',
     commit_page K pg s h = (ok, s', h') ->
     incl (rw_pages h) (rw_pages h') /\ mappings h' = mappings h /\
     (ok = true -> first_not_commited s' = pg + pagesize s) /\
     (ok = false -> s' = s)).
Proof.
  intros L. conjs.
  - intros B os. apply run_ops_total; assumption.
  - intros os s' h' R.
    destruct (run_ops_forward _ _ _ _ _ _ _ _ L R) as (L' & F & I & M & _).
    auto.
  - intros pg C. unfold checked_range_commit.
    apply Z.ltb_ge in C. rewrite C. reflexivity.
  - intros pg ok s' h' E.
    destruct (commit_page_spec _ _ _ _ _ _ _ L E) as (M & I & _ & _).
    destruct (commit_page_layout _ _ _ _ _ _ _ L E) as (_ & T & F).
    auto.
Qed.

Lemma commit_frontier_monotone_witness :
  run_ops linux 8 2 [op_allocate 513; op_free 69632 600; op_extend 69632 513 1024]
          arena4 host4
  = Some (mk_pool 65536 77824 69632 77824 4 18446744073709551529 1111 4096,
          mk_host [(65536, 16384)] [73728; 69632] 3) /\
  first_not_commited arena4 <= 77824.
Proof.
  split; [reflexivity | ].
  destruct (commit_frontier_monotone linux 8 2 arena4 host4) as (_ & R & _);
    [ inv_by_computation | ].
  destruct (R [op_allocate 513; op_free 69632 600; op_extend 69632 513 1024]
              _ _ eq_refl) as (_ & F & _).
  exact F.
Defined.

(** C7 as stated fails for [commit_page] itself: it sets the frontier to
    one page past its argument, so committing the first usable page again,
    after an allocation has committed the second, moves the frontier back
    from [77824] to [73728]. *)
Lemma commit_page_backward_counterexample :
  get_allocation linux 8 1 513 arena4 host4
  = Some (69632, mk_pool 65536 77824 69632 77824 4 513 511 4096,
          mk_host [(65536, 16384)] [73728; 69632] 3) /\
  layout_ok (mk_pool 65536 77824 69632 77824 4 513 511 4096) /\
  commit_page linux 69632 (mk_pool 65536 77824 69632 77824 4 513 511 4096)
              (mk_host [(65536, 16384)] [73728; 69632] 3)
  = (true, mk_pool 65536 77824 69632 73728 4 513 511 4096,
     mk_host [(65536, 16384)] [69632; 73728; 69632] 4) /\
  73728 < 77824.
Proof. conjs; try reflexivity. inv_by_computation. Qed.

(** ** C8: committing one page *)

(** C8. On an initialized arena, [commit_page] fails, leaving the arena
    (the commit frontier included), the page protections and the mappings as
    they were, whenever the address is not a multiple of the page size
    ([mprotect] rejects it), lies below [begin_gp + pagesize] or lies above
    [end_gp]. *)
Theorem commit_page_rejects K pg s h :
  layout_ok s ->
  pg mod page_size K <> 0 \/ pg < begin_gp s + pagesize s \/ end_gp s < pg ->
  exists h',
    commit_page K pg s h = (false, s, h') /\
    rw_pages h' = rw_pages h /\ mappings h' = mappings h.
Proof.
  intros L B.
  destruct (commit_page K pg s h) as [[ok s'] h'] eqn:E.
  destruct (commit_page_spec _ _ _ _ _ _ _ L E) as (M & _ & Hf & Ht).
  destruct ok.
  - destruct (Ht eq_refl) as (R & A & _). destruct L. lia.
  - destruct (Hf eq_refl) as [-> Rw]. exists h'. auto.
Qed.

Lemma commit_page_rejects_witness :
  exists h',
    commit_page linux 69633 arena4 host4 = (false, arena4, h') /\
    rw_pages h' = rw_pages host4 /\ mappings h' = mappings host4.
Proof.
  apply (commit_page_rejects linux 69633 arena4 host4);
    [ inv_by_computation | left; discriminate ].
Defined.

(** ** C9: extension with a smaller count *)

(** C9.  On an initialized arena and for a non-null pointer,
    [extend_allocation] with [new_nmbr < old_nmbr] computes the delta
    [2^64 - (old_nmbr - new_nmbr)].  With counts an array can have, at most
    [PTRDIFF_MAX], and the free slots an arena in user space can have, at
    most [PTRDIFF_MAX] as well, the delta is above [PTRDIFF_MAX], the
    free-slot check fails, and the call returns [false] and changes
    nothing: not the counters, not the commit frontier, not the host.  More
    generally this is so whenever [free_slots_left + (old_nmbr - new_nmbr)]
    is below [2^64]. *)
Theorem extend_allocation_shrink_rejected K slot_size fuel ptr old_nmbr new_nmbr s h :
  begin_gp s <> nullptr -> ptr <> nullptr ->
  0 <= new_nmbr < old_nmbr -> old_nmbr < 2 ^ 64 ->
  u64 (new_nmbr - old_nmbr) = 2 ^ 64 - (old_nmbr - new_nmbr) /\
  (old_nmbr <= PTRDIFF_MAX -> free_slots_left s <= PTRDIFF_MAX ->
   PTRDIFF_MAX < u64 (new_nmbr - old_nmbr) /\
   extend_allocation K slot_size fuel ptr old_nmbr new_nmbr s h
   = Some (false, s, h)) /\
  (free_slots_left s + (old_nmbr - new_nmbr) < 2 ^ 64 ->
   extend_allocation K slot_size fuel ptr old_nmbr new_nmbr s h
   = Some (false, s, h)) /\
  (0 < slot_size -> pool_inv slot_size s -> end_gp s <= user_top ->
   free_slots_left s <= PTRDIFF_MAX).
Proof.
  change (2 ^ 64) with two64. intros B P N O.
  assert (D : u64 (new_nmbr - old_nmbr) = two64 - (old_nmbr - new_nmbr)).
  { replace (new_nmbr - old_nmbr) with (- (old_nmbr - new_nmbr)) by ring.
    apply u64_wrap_neg. lia. }
  assert (T : two64 = PTRDIFF_MAX + PTRDIFF_MAX + 2) by reflexivity.
  assert (R : free_slots_left s + (old_nmbr - new_nmbr) < two64 ->
              extend_allocation K slot_size fuel ptr old_nmbr new_nmbr s h
              = Some (false, s, h)).
  { intros F. unfold extend_allocation.
    apply Z.eqb_neq in P, B. rewrite P, B, D.
    destruct (Z.ltb_spec (free_slots_left s)
                (two64 - (old_nmbr - new_nmbr)));
      [reflexivity | lia]. }
  conjs.
  - exact D.
  - intros Om Fm. split; [ rewrite D; lia | apply R; lia ].
  - exact R.
  - intros Sl I U. pose proof (capacity_bytes _ Sl s I) as C.
    destruct I as [L Oc F _]. destruct L.
    assert (user_top = PTRDIFF_MAX + 1) by reflexivity. nia.
Qed.

Lemma extend_allocation_shrink_rejected_witness :
  PTRDIFF_MAX < u64 (5 - 10) /\
  extend_allocation linux 8 0 69632 10 5
    (set_slots arena4 10 1014) host4
  = Some (false, set_slots arena4 10 1014, host4).
Proof.
  destruct (extend_allocation_shrink_rejected linux 8 0 69632 10 5
              (set_slots arena4 10 1014) host4) as (_ & A & _);
    [ discriminate | discriminate | lia | reflexivity | ].
  apply A; vm_compute; discriminate.
Defined.

(** ** C10: freeing *)

(** C10. On an initialized arena, [delete_allocation] with a non-null
    pointer returns [true] for every count and only moves the two counters:
    [occupied_slots] becomes [occupied_slots - count] and [free_slots_left]
    becomes [free_slots_left + count], both modulo [2^64], also when [count]
    exceeds [occupied_slots] (the counter then wraps, it is not clamped);
    their sum is preserved modulo [2^64]. *)
Theorem delete_allocation_unchecked ptr nmbr s :
  ptr <> nullptr -> begin_gp s <> nullptr ->
  exists s',
    delete_allocation ptr nmbr s = (true, s') /\
    s' = set_slots s (occupied_slots s') (free_slots_left s') /\
    occupied_slots s' = (occupied_slots s - nmbr) mod 2 ^ 64 /\
    free_slots_left s' = (free_slots_left s + nmbr) mod 2 ^ 64 /\
    (0 <= occupied_slots s < nmbr -> nmbr <= 2 ^ 64 ->
     occupied_slots s' = occupied_slots s - nmbr + 2 ^ 64) /\
    (occupied_slots s' + free_slots_left s') mod 2 ^ 64
    = (occupied_slots s + free_slots_left s) mod 2 ^ 64.
Proof.
  intros P B. unfold delete_allocation.
  apply Z.eqb_neq in P, B. rewrite P, B.
  eexists. split; [reflexivity | ]. pool_simpl.
  change (2 ^ 64) with two64. fold (u64 (occupied_slots s - nmbr)).
  fold (u64 (free_slots_left s + nmbr)).
  conjs; try reflexivity.
  - intros O N.
    replace (occupied_slots s - nmbr) with (- (nmbr - occupied_slots s))
      by ring.
    rewrite u64_wrap_neg by lia. ring.
  - fold (u64 (u64 (occupied_slots s - nmbr) + u64 (free_slots_left s + nmbr))).
    fold (u64 (occupied_slots s + free_slots_left s)).
    rewrite u64_add_l, u64_add_r. f_equal. ring.
Qed.

Lemma delete_allocation_unchecked_witness :
  exists s',
    delete_allocation 69632 5 arena4 = (true, s') /\
    occupied_slots s' = 18446744073709551611 /\ free_slots_left s' = 1029.
Proof.
  destruct (delete_allocation_unchecked 69632 5 arena4)
    as (s' & E & _ & O & F & _); [discriminate | discriminate | ].
  exists s'. split; [exact E | ]. rewrite O, F. split; reflexivity.
Defined.

(** * Further properties of the code *)

(** ** The slot accounting along a run *)

Section Accounting.

Variable K : kernel.
Variable slot_size : Z.
Hypothesis slot_size_pos : 0 < slot_size.

Lemma kept_refl s : pool_inv slot_size s -> kept slot_size s s.
Proof. intros I. split; [exact I | reflexivity]. Qed.

Lemma kept_advanced s s' :
  pool_inv slot_size s -> layout_ok s' -> advanced s s' -> kept slot_size s s'.
Proof.
  intros I L A. split; [ apply (pool_inv_advanced _ _ _ I L A) | ].
  destruct (advanced_fields _ _ A) as (_ & _ & _ & -> & -> & _).
  reflexivity.
Qed.

Lemma kept_bump s d :
  pool_inv slot_size s -> 0 <= d <= free_slots_left s ->
  kept slot_size s (set_slots s (u64 (occupied_slots s + d))
                      (u64 (free_slots_left s - d))).
Proof.
  intros I D.
  destruct (pool_inv_bump _ slot_size_pos s d I D) as (I' & U1 & U2).
  split; [exact I' | ]. pool_simpl. rewrite U1, U2. ring.
Qed.

Lemma kept_trans s1 s2 s3 : kept slot_size s1 s2 -> kept slot_size s2 s3 -> kept slot_size s1 s3.
Proof. intros [_ E1] [I E2]. split; [exact I | congruence]. Qed.

Lemma get_allocation_kept fuel n s h p s' h' :
  pool_inv slot_size s -> 0 <= n ->
  get_allocation K slot_size fuel n s h = Some (p, s', h') -> kept slot_size s s'.
Proof.
  intros I N E.
  destruct (get_allocation_spec _ _ slot_size_pos _ _ _ _ _ _ _ I N E)
    as (I' & _ & _ & _ & [[_ A] | (_ & _ & _ & s2 & A & ->)]);
    split; try exact I';
    destruct (advanced_fields _ _ A) as (_ & _ & _ & Eo & Ef & _);
    pool_simpl; lia.
Qed.

Lemma extend_allocation_kept fuel ptr o n s h ok s' h' :
  pool_inv slot_size s ->
  extend_allocation K slot_size fuel ptr o n s h = Some (ok, s', h') ->
  kept slot_size s s'.
Proof.
  intros I.
  assert (L : layout_ok s) by (destruct I; assumption).
  unfold extend_allocation.
  destruct (ptr =? nullptr);
    [ intros E; injection E as <- <- <-; apply kept_refl, I | ].
  destruct (begin_gp s =? nullptr);
    [ intros E; injection E as <- <- <-; apply kept_refl, I | ].
  destruct (Z.ltb_spec (free_slots_left s) (u64 (n - o)));
    [ intros E; injection E as <- <- <-; apply kept_refl, I | ].
  destruct (negb (slot_add slot_size ptr o =? frontier slot_size s));
    [ intros E; injection E as <- <- <-; apply kept_refl, I | ].
  destruct (checked_range_commit K fuel _ s h) as [[[ok2 s2] h2] | ] eqn:R;
    [ | discriminate ].
  destruct (checked_range_commit_spec _ _ _ _ _ _ _ _ L R) as (L2 & A & _).
  pose proof (kept_advanced _ _ I L2 A) as K2.
  destruct (advanced_fields _ _ A) as (_ & _ & _ & Eo & Ef & _).
  destruct ok2; intros E; injection E as <- <- <-; [ | exact K2 ].
  apply (kept_trans _ _ _ K2). apply kept_bump; [ apply K2 | ].
  pose proof (u64_range (n - o)). lia.
Qed.

Lemma delete_allocation_kept ptr n s :
  pool_inv slot_size s -> 0 <= n <= occupied_slots s ->
  kept slot_size s (snd (delete_allocation ptr n s)).
Proof.
  intros I N. unfold delete_allocation.
  destruct (ptr =? nullptr); [apply kept_refl, I | ].
  destruct (begin_gp s =? nullptr); [apply kept_refl, I | ].
  pose proof (capacity_bytes _ slot_size_pos s I) as C.
  destruct I as [L O F E]. pool_simpl.
  assert (B : occupied_slots s + free_slots_left s < two64)
    by (destruct L; nia).
  rewrite !u64_small by lia.
  split; [ | pool_simpl; ring ].
  constructor; pool_simpl; try lia.
  apply layout_set_slots, L.
Qed.

Lemma run_op_kept fuel o s h s' h' :
  pool_inv slot_size s -> op_fits s o ->
  run_op K slot_size fuel o s h = Some (s', h') -> kept slot_size s s'.
Proof.
  intros I F.
  assert (L : layout_ok s) by (destruct I; assumption).
  destruct o as [n | ptr o n | ptr n | v | pg | pgs]; simpl in *.
  - destruct (get_allocation K slot_size fuel n s h)
      as [[[p s1] h1] | ] eqn:E; [ | discriminate ].
    intros X. injection X as <- <-. eapply get_allocation_kept; eauto.
  - destruct (extend_allocation K slot_size fuel ptr o n s h)
      as [[[p s1] h1] | ] eqn:E; [ | discriminate ].
    intros X. injection X as <- <-. eapply extend_allocation_kept; eauto.
  - intros X. injection X as <- <-. apply delete_allocation_kept; assumption.
  - intros X. injection X as <- <-. apply kept_refl, I.
  - destruct (checked_range_commit K fuel pg s h)
      as [[[p s1] h1] | ] eqn:E; [ | discriminate ].
    intros X. injection X as <- <-.
    destruct (checked_range_commit_spec _ _ _ _ _ _ _ _ L E) as (L2 & A & _).
    apply kept_advanced; assumption.
  - rewrite init_pool_initialized by exact L.
    intros X. injection X as <- <-. apply kept_refl, I.
Qed.

Lemma run_ops_kept fuel os : forall s h s' h',
  pool_inv slot_size s -> fits_along K slot_size fuel os s h ->
  run_ops K slot_size fuel os s h = Some (s', h') -> kept slot_size s s'.
Proof.
  induction os as [ | o os IH ]; intros s h s' h' I; simpl.
  - intros _ X. injection X as <- <-. apply kept_refl, I.
  - intros [F R].
    destruct (run_op K slot_size fuel o s h) as [[s1 h1] | ] eqn:E;
      [ | discriminate ].
    intros X. pose proof (run_op_kept _ _ _ _ _ _ I F E) as K1.
    apply (kept_trans _ _ _ K1).
    apply (IH s1 h1 s' h'); [apply K1 | exact R | exact X].
Qed.

End Accounting.

(** X1. Along every run of allocations, extensions, frees, ownership
    tests, range commits and refused re-initializations on a well-formed
    arena, as long as no free returns more slots than are occupied, the arena
    stays well formed and [occupied_slots + free_slots_left] stays the
    capacity of the usable region. *)
Theorem slot_accounting_invariant K slot_size fuel os s h s' h' :
  0 < slot_size -> pool_inv slot_size s ->
  fits_along K slot_size fuel os s h ->
  run_ops K slot_size fuel os s h = Some (s', h') ->
  pool_inv slot_size s' /\
  occupied_slots s' + free_slots_left s'
  = (end_gp s - allocation_area s) / slot_size /\
  0 <= occupied_slots s' /\ 0 <= free_slots_left s'.
Proof.
  intros Sl I F R.
  destruct (run_ops_kept _ _ Sl _ _ _ _ _ _ I F R) as [I' E].
  split; [exact I' | ]. rewrite E.
  destruct I as [_ _ _ C]. destruct I' as [_ O' F' _]. auto.
Qed.

Lemma slot_accounting_invariant_witness :
  run_ops linux 8 2
    [op_allocate 100; op_extend 69632 100 600; op_free 69632 50;
     op_allocate 2000; op_allocate 474]
    arena4 host4
  = Some (mk_pool 65536 77824 69632 77824 4 1024 0 4096,
          mk_host [(65536, 16384)] [73728; 69632] 3) /\
  1024 + 0 = (end_gp arena4 - allocation_area arena4) / 8.
Proof.
  split; [reflexivity | ].
  destruct (slot_accounting_invariant linux 8 2
              [op_allocate 100; op_extend 69632 100 600; op_free 69632 50;
               op_allocate 2000; op_allocate 474]
              arena4 host4
              (mk_pool 65536 77824 69632 77824 4 1024 0 4096)
              (mk_host [(65536, 16384)] [73728; 69632] 3))
    as (_ & E & _);
    [ lia | inv_by_computation | vm_compute; intuition discriminate
    | reflexivity | ].
  exact E.
Defined.

(** ** When an allocation succeeds *)

(** X2. On a host that grants every commit, a request made of a
    well-formed arena returns, and it returns a block, the one at the bump
    frontier, exactly when the count does not exceed [free_slots_left];
    arena and host still agree afterwards. *)
Theorem get_allocation_succeeds_iff K slot_size fuel n s h :
  0 < slot_size -> generous K -> pool_inv slot_size s -> coupled K s h ->
  0 <= n -> pages_left s < Z.of_nat fuel ->
  exists p s' h',
    get_allocation K slot_size fuel n s h = Some (p, s', h') /\
    (p <> nullptr <-> n <= free_slots_left s) /\
    (n <= free_slots_left s ->
     p = allocation_area s + occupied_slots s * slot_size) /\
    coupled K s' h'.
Proof.
  intros Sl G I C N F.
  destruct (Z.le_gt_cases n (free_slots_left s)) as [Le | Gt].
  - destruct (get_allocation_granted K slot_size G Sl fuel n s h I C
                (conj N Le) F) as (s' & h' & E & Nn & C').
    exists (allocation_area s + occupied_slots s * slot_size), s', h'.
    conjs; auto. split; auto.
  - exists nullptr, s, h. conjs; auto.
    + rewrite get_allocation_initialized
        by (destruct I as [[] _ _ _]; unfold nullptr; lia).
      apply Z.ltb_lt in Gt. rewrite Gt. reflexivity.
    + split; [congruence | lia].
    + lia.
Qed.

Lemma arena4_coupled : coupled linux arena4 host4.
Proof. constructor; [reflexivity | reflexivity | left; reflexivity]. Qed.

Lemma get_allocation_succeeds_iff_witness :
  exists p s' h',
    get_allocation linux 8 3 1024 arena4 host4 = Some (p, s', h') /\
    p = 69632.
Proof.
  destruct (get_allocation_succeeds_iff linux 8 3 1024 arena4 host4)
    as (p & s' & h' & E & _ & A & _);
    [ lia | intros ? ?; reflexivity | inv_by_computation
    | constructor; [reflexivity | reflexivity | left; reflexivity]
    | lia | reflexivity | ].
  exists p, s', h'. split; [exact E | ]. apply A. reflexivity.
Defined.

(** ** Where the blocks lie *)

Lemma granted_firstn_S ns : forall ps k,
  granted_slots (firstn (S k) ns) (firstn (S k) ps)
  = granted_slots (firstn k ns) (firstn k ps)
    + match nth_error ns k, nth_error ps k with
      | Some n, Some p => if p =? nullptr then 0 else n
      | _, _ => 0
      end.
Proof.
  induction ns as [ | n ns IH ]; intros ps k.
  - destruct k; reflexivity.
  - destruct ps as [ | p ps ].
    + destruct k; simpl; [reflexivity | ].
      destruct (nth_error ns k); reflexivity.
    + destruct k as [ | k ].
      * simpl. ring.
      * change (firstn (S (S k)) (n :: ns)) with (n :: firstn (S k) ns).
        change (firstn (S (S k)) (p :: ps)) with (p :: firstn (S k) ps).
        change (firstn (S k) (n :: ns)) with (n :: firstn k ns).
        change (firstn (S k) (p :: ps)) with (p :: firstn k ps).
        cbn [granted_slots nth_error]. rewrite IH. ring.
Qed.

Lemma granted_firstn_step ns ps k :
  Forall (fun n => 0 <= n) ns ->
  granted_slots (firstn k ns) (firstn k ps)
  <= granted_slots (firstn (S k) ns) (firstn (S k) ps).
Proof.
  intros N. rewrite granted_firstn_S.
  destruct (nth_error ns k) as [n | ] eqn:En; [ | lia ].
  destruct (nth_error ps k) as [p | ]; [ | lia ].
  destruct (p =? nullptr); [lia | ].
  apply nth_error_In in En.
  rewrite Forall_forall in N. specialize (N n En). simpl in N. lia.
Qed.

Lemma granted_firstn_mono ns ps k k' :
  Forall (fun n => 0 <= n) ns -> (k <= k')%nat ->
  granted_slots (firstn k ns) (firstn k ps)
  <= granted_slots (firstn k' ns) (firstn k' ps).
Proof.
  intros N L. induction L as [ | k' L IH ]; [lia | ].
  pose proof (granted_firstn_step ns ps k' N). lia.
Qed.

Lemma granted_firstn_total ns ps k :
  Forall (fun n => 0 <= n) ns -> length ps = length ns ->
  granted_slots (firstn k ns) (firstn k ps) <= granted_slots ns ps.
Proof.
  intros N L.
  destruct (Nat.le_gt_cases k (length ns)) as [Le | Gt].
  - rewrite <- (firstn_all ns) at 2. rewrite <- (firstn_all ps) at 2.
    rewrite L. apply granted_firstn_mono; assumption.
  - rewrite !firstn_all2 by lia. lia.
Qed.

Lemma get_allocations_forward K slot_size fuel ns : forall s h ps s' h',
  layout_ok s ->
  get_allocations K slot_size fuel ns s h = Some (ps, s', h') ->
  forward s h s' h'.
Proof.
  induction ns as [ | n ns IH ]; intros s h ps s' h' L; simpl.
  - intros E. injection E as <- <- <-. apply forward_refl, L.
  - destruct (get_allocation K slot_size fuel n s h)
      as [[[p s1] h1] | ] eqn:G; [ | discriminate ].
    destruct (get_allocations K slot_size fuel ns s1 h1)
      as [[[ps1 s2] h2] | ] eqn:R; [ | discriminate ].
    intros E. injection E as <- <- <-.
    pose proof (get_allocation_forward _ _ _ _ _ _ _ _ _ L G) as F1.
    apply (forward_trans _ _ _ _ _ _ F1).
    apply (IH _ _ _ _ _ (proj1 F1) R).
Qed.

(** X3. The blocks a run of consecutive allocations returns lie inside the
    usable region, between the two guard pages, and do not overlap: each
    ends where a later one starts, or before. *)
Theorem allocated_blocks_disjoint K slot_size fuel ns s h ps s' h' :
  0 < slot_size -> pool_inv slot_size s -> Forall (fun n => 0 <= n) ns ->
  get_allocations K slot_size fuel ns s h = Some (ps, s', h') ->
  (forall i n p,
     nth_error ns i = Some n -> nth_error ps i = Some p -> p <> nullptr ->
     begin_gp s + pagesize s <= p /\ p + n * slot_size <= end_gp s) /\
  (forall i j n p q,
     (i < j)%nat ->
     nth_error ns i = Some n -> nth_error ps i = Some p -> p <> nullptr ->
     nth_error ps j = Some q -> q <> nullptr ->
     p + n * slot_size <= q).
Proof.
  intros Sl I N R.
  destruct (get_allocations_spec _ _ Sl _ _ _ _ _ _ _ I N R)
    as (I' & Len & Ea & Eo & _).
  pose proof (capacity_bytes _ Sl s' I') as Cb.
  assert (End : forall i n p,
     nth_error ns i = Some n -> nth_error ps i = Some p -> p <> nullptr ->
     p + n * slot_size
     = allocation_area s
       + slot_size * (occupied_slots s
                      + granted_slots (firstn (S i) ns) (firstn (S i) ps))).
  { intros i n p En Ep Nn.
    rewrite (get_allocations_address _ _ Sl _ _ _ _ _ _ _ _ _ I N R Ep Nn).
    rewrite granted_firstn_S, En, Ep.
    apply Z.eqb_neq in Nn. rewrite Nn. ring. }
  split.
  - intros i n p En Ep Nn. split.
    + rewrite (get_allocations_address _ _ Sl _ _ _ _ _ _ _ _ _ I N R Ep Nn).
      assert (0 <= granted_slots (firstn i ns) (firstn i ps)).
      { apply (granted_firstn_mono ns ps 0 i N). lia. }
      destruct I as [[Lp Lb La Le Lt Lf] O F _]. nia.
    + rewrite (End i n p En Ep Nn).
      pose proof (granted_firstn_total ns ps (S i) N Len) as T.
      destruct I' as [[Lp Lb La Le Lt Lf] O' F' C'].
      assert (Ee : end_gp s' = end_gp s).
      { apply (get_allocations_forward K slot_size fuel ns s h ps s' h');
          [ destruct I; assumption | exact R ]. }
      nia.
  - intros i j n p q L En Ep Nn Eq Nq.
    rewrite (End i n p En Ep Nn).
    rewrite (get_allocations_address _ _ Sl _ _ _ _ _ _ _ _ _ I N R Eq Nq).
    pose proof (granted_firstn_mono ns ps (S i) j N L). nia.
Qed.

Lemma allocated_blocks_disjoint_witness :
  get_allocations linux 8 2 [10; 2000; 502; 5] arena4 host4
  = Some ([69632; 0; 69712; 73728],
          mk_pool 65536 77824 69632 77824 4 517 507 4096,
          mk_host [(65536, 16384)] [73728; 69632] 3) /\
  69632 + 10 * 8 <= 69712 /\ 73728 + 5 * 8 <= end_gp arena4.
Proof.
  split; [reflexivity | ].
  destruct (allocated_blocks_disjoint linux 8 2 [10; 2000; 502; 5]
              arena4 host4 [69632; 0; 69712; 73728]
              (mk_pool 65536 77824 69632 77824 4 517 507 4096)
              (mk_host [(65536, 16384)] [73728; 69632] 3)) as (A & B);
    [ lia | inv_by_computation | repeat constructor; lia | reflexivity | ].
  split.
  - apply (B 0%nat 2%nat 10 69632 69712);
      [ lia | reflexivity | reflexivity | discriminate | reflexivity
      | discriminate ].
  - apply (A 3%nat 5 73728); [ reflexivity | reflexivity | discriminate ].
Defined.

(** ** Which pages an allocation commits *)

Section Pages.

Variable K : kernel.
Variable slot_size : Z.

Lemma mprotect_pages h a len h' :
  mprotect K h a len = (h', 0) ->
  rw_pages h' = pages_of (page_size K) a len ++ rw_pages h.
Proof.
  unfold mprotect.
  destruct (negb (a mod page_size K =? 0)); [discriminate | ].
  destruct (negb (existsb (inside a len) (mappings h))); [discriminate | ].
  destruct (negb (mprotect_grant K (syscalls h) a)); [discriminate | ].
  intros E. injection E as <-. reflexivity.
Qed.

(** A successful [commit_page] makes exactly its page accessible. *)
Lemma commit_page_pages pg s h s' h' :
  layout_ok s -> coupled K s h ->
  commit_page K pg s h = (true, s', h') ->
  rw_pages h' = pg :: rw_pages h /\ coupled K s' h' /\
  allocation_area s <= pg <= end_gp s /\
  s' = set_first_not_commited s (pg + pagesize s).
Proof.
  intros L C E.
  destruct (commit_page_spec _ _ _ _ _ _ _ L E) as (M & _ & _ & Ht).
  destruct (Ht eq_refl) as (R & A & Es). clear Ht.
  assert (Rw : rw_pages h' = pg :: rw_pages h).
  { revert E. unfold commit_page. rewrite (layout_page_u64 s L).
    destruct ((pg <? u64 (begin_gp s + pagesize s)) || (end_gp s <? pg));
      [discriminate | ].
    destruct (mprotect K h pg (pagesize s)) as [h1 r] eqn:Mp.
    destruct (mprotect_spec _ _ _ _ _ _ Mp) as (_ & _ & [-> | ->] & _);
      simpl; [discriminate | ].
    intros E. injection E as _ <-.
    rewrite (mprotect_pages _ _ _ _ Mp).
    destruct C as [Cp _ _]. rewrite <- Cp.
    rewrite pages_of_one by (destruct L; assumption). reflexivity. }
  conjs; auto; try apply R.
  destruct C as [Cp Ca Cm]. rewrite Es. constructor; pool_simpl.
  - exact Cp.
  - replace (pg + pagesize s) with (pg + 1 * pagesize s) by ring.
    rewrite Z.mod_add by (destruct L; lia). rewrite Cp. exact A.
  - rewrite M. exact Cm.
Qed.

Lemma commit_page_refused_coupled pg s h s' h' :
  layout_ok s -> coupled K s h ->
  commit_page K pg s h = (false, s', h') ->
  s' = s /\ rw_pages h' = rw_pages h /\ coupled K s' h'.
Proof.
  intros L C E.
  destruct (commit_page_spec _ _ _ _ _ _ _ L E) as (M & _ & Hf & _).
  destruct (Hf eq_refl) as [-> Rw]. conjs; auto.
  destruct C as [Cp Ca Cm]. constructor; auto. rewrite M. exact Cm.
Qed.

(** The loop makes accessible only pages that start at or after the
    frontier, before the end address, and not after [end_gp]. *)
Lemma commit_loop_pages fuel : forall pg s h ok s' h',
  layout_ok s -> coupled K s h ->
  commit_loop K fuel pg (first_not_commited s) s h = Some (ok, s', h') ->
  coupled K s' h' /\
  forall q, In q (rw_pages h') ->
            In q (rw_pages h) \/ first_not_commited s <= q < pg.
Proof.
  induction fuel as [ | fuel IH ]; intros pg s h ok s' h' L C; simpl.
  - destruct (first_not_commited s <? pg); [discriminate | ].
    intros E. injection E as <- <- <-. auto.
  - destruct (Z.ltb_spec (first_not_commited s) pg).
    2:{ intros E. injection E as <- <- <-. auto. }
    destruct (commit_page K (first_not_commited s) s h)
      as [[ok1 s1] h1] eqn:P.
    destruct ok1.
    + destruct (commit_page_pages _ _ _ _ _ L C P) as (Rw & C1 & R & Es).
      destruct (commit_page_layout _ _ _ _ _ _ _ L P) as (L1 & Hn & _).
      specialize (Hn eq_refl).
      assert (P1 : pagesize s1 = pagesize s) by (rewrite Es; reflexivity).
      rewrite P1, (layout_page_u64 s L).
      rewrite u64_small by (destruct L; lia).
      rewrite <- Hn. intros E.
      destruct (IH _ _ _ _ _ _ L1 C1 E) as (C' & In').
      split; [exact C' | ]. intros q Q.
      destruct (In' q Q) as [Q1 | Q1].
      * rewrite Rw in Q1. destruct Q1 as [<- | Q1]; [right; lia | auto].
      * right. rewrite Hn in Q1. destruct L. lia.
    + destruct (commit_page_refused_coupled _ _ _ _ _ L C P)
        as (-> & Rw & C1).
      intros E. injection E as <- <- <-.
      split; [exact C1 | ]. intros q Q. rewrite Rw in Q. auto.
Qed.

Lemma checked_range_commit_pages fuel pg s h ok s' h' :
  layout_ok s -> coupled K s h ->
  checked_range_commit K fuel pg s h = Some (ok, s', h') ->
  coupled K s' h' /\
  forall q, In q (rw_pages h') ->
            In q (rw_pages h) \/ first_not_commited s <= q < pg.
Proof.
  intros L C. unfold checked_range_commit.
  destruct (first_not_commited s <? pg).
  - apply commit_loop_pages; assumption.
  - intros E. injection E as <- <- <-. auto.
Qed.

Hypothesis slot_size_pos : 0 < slot_size.

(** The address of the last byte of [d] more slots. *)
Lemma end_byte_value s d :
  pool_inv slot_size s -> 0 <= d <= free_slots_left s ->
  u64 (slot_add slot_size (frontier slot_size s) d - 1)
  = allocation_area s + (occupied_slots s + d) * slot_size - 1 /\
  allocation_area s + (occupied_slots s + d) * slot_size <= end_gp s.
Proof.
  intros I D. pose proof (capacity_bytes _ slot_size_pos s I) as Cb.
  destruct (frontier_exact _ slot_size_pos s I) as [Fe Fr].
  destruct I as [[] O F _].
  assert (0 <= d * slot_size
          <= (occupied_slots s + free_slots_left s) * slot_size
             - occupied_slots s * slot_size) by nia.
  unfold slot_add. rewrite Fe.
  rewrite (u64_small (allocation_area s + occupied_slots s * slot_size
                      + d * slot_size)) by lia.
  rewrite u64_small by lia. split; lia.
Qed.

End Pages.

(** X4. [get_allocation] commits pages only as long as they start below
    the address of the block's last byte.  So the last byte of a block it
    returns is at or below the commit frontier, and when that byte is the
    first byte of the first page not yet committed, the block is returned
    and nothing is committed: its last byte lies on a page without
    access. *)
Theorem last_byte_at_the_frontier K slot_size fuel n s h :
  0 < slot_size -> pool_inv slot_size s -> 0 < n <= free_slots_left s ->
  (forall p s' h',
     get_allocation K slot_size fuel n s h = Some (p, s', h') ->
     p <> nullptr -> p + n * slot_size - 1 <= first_not_commited s') /\
  (allocation_area s + (occupied_slots s + n) * slot_size - 1
   = first_not_commited s ->
   get_allocation K slot_size fuel n s h
   = Some (allocation_area s + occupied_slots s * slot_size,
           set_slots s (occupied_slots s + n) (free_slots_left s - n), h)).
Proof.
  intros Sl I N.
  assert (L : layout_ok s) by (destruct I; assumption).
  assert (N' : 0 <= n <= free_slots_left s) by lia.
  destruct (end_byte_value _ Sl s n I N') as (Ev & _).
  destruct (frontier_exact _ Sl s I) as [Fe _].
  destruct (pool_inv_bump _ Sl s n I N') as (_ & U1 & U2).
  rewrite get_allocation_initialized by (destruct L; unfold nullptr; lia).
  destruct (Z.ltb_spec (free_slots_left s) n); [lia | ].
  rewrite Ev. split.
  - intros p s' h'.
    destruct (checked_range_commit K fuel _ s h) as [[[ok s2] h2] | ] eqn:R;
      [ | discriminate ].
    destruct (checked_range_commit_spec _ _ _ _ _ _ _ _ L R)
      as (_ & A & _ & _ & T).
    destruct ok; intros E; injection E as <- <- <-; [ | congruence ].
    intros _. rewrite (advanced_frontier _ _ _ A), Fe.
    pool_simpl. specialize (T eq_refl). lia.
  - intros Eq. unfold checked_range_commit. rewrite Eq, Z.ltb_irrefl.
    rewrite Fe, U1, U2. reflexivity.
Qed.

Lemma last_byte_at_the_frontier_witness :
  init_pool linux 1 4 empty_pool fresh_host
  = (true, set_slots arena4 0 8192, host4) /\
  get_allocation linux 1 0 4097 (set_slots arena4 0 8192) host4
  = Some (69632, set_slots arena4 4097 4095, host4) /\
  69632 + 4097 * 1 - 1 = first_not_commited (set_slots arena4 4097 4095) /\
  ~ In 73728 (rw_pages host4).
Proof.
  split; [reflexivity | ].
  split; [ | split; [reflexivity | ] ].
  - destruct (last_byte_at_the_frontier linux 1 0 4097
                (set_slots arena4 0 8192) host4) as (_ & B);
      [ lia | inv_by_computation | simpl; lia | ].
    apply B. reflexivity.
  - simpl. intros [X | []]. discriminate.
Defined.

(** X5. An allocation or an extension on a well-formed arena makes
    accessible only pages of the usable region after its first page: a page
    that was not accessible before and is afterwards starts at or after
    [allocation_area + pagesize] and before [end_gp].  The two guard pages
    stay as they were. *)
Theorem guard_pages_stay_inaccessible K slot_size fuel s h :
  0 < slot_size -> pool_inv slot_size s -> coupled K s h ->
  (forall n p s' h' q,
     0 <= n ->
     get_allocation K slot_size fuel n s h = Some (p, s', h') ->
     In q (rw_pages h') ->
     In q (rw_pages h) \/
     allocation_area s + pagesize s <= q < end_gp s) /\
  (forall ptr o n ok s' h' q,
     extend_allocation K slot_size fuel ptr o n s h = Some (ok, s', h') ->
     In q (rw_pages h') ->
     In q (rw_pages h) \/
     allocation_area s + pagesize s <= q < end_gp s).
Proof.
  intros Sl I C.
  assert (L : layout_ok s) by (destruct I; assumption).
  assert (Fr : allocation_area s + pagesize s <= first_not_commited s)
    by (destruct L; lia).
  split.
  - intros n p s' h' q N.
    rewrite get_allocation_initialized by (destruct L; unfold nullptr; lia).
    destruct (Z.ltb_spec (free_slots_left s) n).
    { intros E. injection E as <- <- <-. auto. }
    destruct (end_byte_value _ Sl s n I (conj N H)) as (Ev & Eb).
    rewrite Ev.
    destruct (checked_range_commit K fuel _ s h) as [[[ok s2] h2] | ] eqn:R;
      [ | discriminate ].
    destruct (checked_range_commit_pages _ _ _ _ _ _ _ _ L C R) as (_ & Pg).
    destruct ok; intros E; injection E as <- <- <-; intros Q;
      (destruct (Pg q Q) as [Q1 | Q1]; [auto | right; lia]).
  - intros ptr o n ok s' h' q. unfold extend_allocation.
    destruct (ptr =? nullptr);
      [ intros E; injection E as <- <- <-; auto | ].
    destruct (begin_gp s =? nullptr);
      [ intros E; injection E as <- <- <-; auto | ].
    destruct (Z.ltb_spec (free_slots_left s) (u64 (n - o)));
      [ intros E; injection E as <- <- <-; auto | ].
    destruct (negb (slot_add slot_size ptr o =? frontier slot_size s));
      [ intros E; injection E as <- <- <-; auto | ].
    pose proof (u64_range (n - o)) as U.
    destruct (end_byte_value _ Sl s (u64 (n - o)) I (conj (proj1 U) H))
      as (Ev & Eb).
    rewrite Ev.
    destruct (checked_range_commit K fuel _ s h) as [[[ok2 s2] h2] | ] eqn:R;
      [ | discriminate ].
    destruct (checked_range_commit_pages _ _ _ _ _ _ _ _ L C R) as (_ & Pg).
    destruct ok2; intros E; injection E as <- <- <-; intros Q;
      (destruct (Pg q Q) as [Q1 | Q1]; [auto | right; lia]).
Qed.

Lemma guard_pages_stay_inaccessible_witness :
  get_allocation linux 8 2 1024 arena4 host4
  = Some (69632, mk_pool 65536 77824 69632 77824 4 1024 0 4096,
          mk_host [(65536, 16384)] [73728; 69632] 3) /\
  (In 73728 (rw_pages host4) \/
   allocation_area arena4 + pagesize arena4 <= 73728 < end_gp arena4).
Proof.
  split; [reflexivity | ].
  destruct (guard_pages_stay_inaccessible linux 8 2 arena4 host4) as (A & _);
    [ lia | inv_by_computation
    | constructor; [reflexivity | reflexivity | left; reflexivity] | ].
  apply (A 1024 69632 (mk_pool 65536 77824 69632 77824 4 1024 0 4096)
           (mk_host [(65536, 16384)] [73728; 69632] 3) 73728);
    [ lia | reflexivity | left; reflexivity ].
Defined.

(** X6. [commit_page] itself does not spare the trailing guard page: its
    range check lets [end_gp] through, so on a host that grants the change
    the guard page becomes readable and writable and the commit frontier
    ends up one page past it. *)
Theorem commit_page_accepts_end_guard K s h :
  generous K -> layout_ok s -> coupled K s h ->
  end_gp s mod page_size K = 0 ->
  exists h',
    commit_page K (end_gp s) s h
    = (true, set_first_not_commited s (end_gp s + pagesize s), h') /\
    rw_pages h' = end_gp s :: rw_pages h.
Proof.
  intros G L C A.
  destruct (commit_page K (end_gp s) s h) as [[ok s'] h'] eqn:E.
  assert (O : ok = true).
  { revert E. unfold commit_page. rewrite (layout_page_u64 s L).
    assert (B : u64 (begin_gp s + pagesize s) = allocation_area s)
      by (destruct L; rewrite u64_small; lia).
    rewrite B.
    destruct (Z.ltb_spec (end_gp s) (allocation_area s));
      [destruct L; lia | ].
    rewrite Z.ltb_irrefl. simpl. unfold mprotect. rewrite A. simpl.
    destruct C as [Cp Ca Cm].
    assert (X : existsb (inside (end_gp s) (pagesize s)) (mappings h) = true).
    { apply existsb_exists. eexists. split; [exact Cm | ].
      unfold inside. simpl. destruct L.
      apply andb_true_iff. split; apply Z.leb_le; lia. }
    rewrite X, G. simpl. intros Y. injection Y as <- _ _. reflexivity. }
  subst ok.
  destruct (commit_page_pages _ _ _ _ _ _ L C E) as (Rw & _ & _ & ->).
  exists h'. auto.
Qed.

Lemma commit_page_accepts_end_guard_witness :
  exists h',
    commit_page linux 77824 arena4 host4
    = (true, set_first_not_commited arena4 81920, h') /\
    rw_pages h' = 77824 :: rw_pages host4.
Proof.
  apply (commit_page_accepts_end_guard linux arena4 host4);
    [ intros ? ?; reflexivity | inv_by_computation
    | constructor; [reflexivity | reflexivity | left; reflexivity]
    | reflexivity ].
Defined.

(** ** The arena a successful initialization leaves *)

Section FreshArena.

Variable K : kernel.
Variable slot_size : Z.
Hypothesis slot_size_pos : 0 < slot_size.

Lemma fresh_arena_inv a n :
  0 < page_size K -> 2 <= n -> 0 < a -> a + n * page_size K <= user_top ->
  pool_inv slot_size (fresh_arena slot_size a n (page_size K)).
Proof.
  intros Pp N A T. assert (user_top < two64) by reflexivity.
  unfold fresh_arena. constructor; pool_simpl.
  - constructor; pool_simpl; nia.
  - lia.
  - apply Z.div_pos; nia.
  - rewrite Z.add_0_l. f_equal. ring.
Qed.

Lemma fresh_arena_coupled a n h1 :
  0 < page_size K -> a mod page_size K = 0 ->
  In (a, n * page_size K) (mappings h1) ->
  coupled K (fresh_arena slot_size a n (page_size K))
          (with_page h1 (a + page_size K)).
Proof.
  intros Pp A M. unfold fresh_arena, with_page. constructor; pool_simpl.
  - reflexivity.
  - replace (a + page_size K + page_size K)
      with (a + 2 * page_size K) by ring.
    rewrite Z.mod_add by lia. exact A.
  - simpl.
    replace (a + (n - 1) * page_size K + page_size K - a)
      with (n * page_size K) by ring.
    exact M.
Qed.

Lemma fresh_arena_pages_left a n :
  0 < page_size K ->
  pages_left (fresh_arena slot_size a n (page_size K)) = n - 2.
Proof.
  intros Pp. unfold pages_left, fresh_arena. pool_simpl.
  replace (a + (n - 1) * page_size K + page_size K
           - (a + page_size K + page_size K))
    with ((n - 2) * page_size K) by ring.
  apply Z.div_mul. lia.
Qed.

(** What the mapping and one granted commit give, in one statement. *)
Lemma init_pool_fresh pgs s h h1 a :
  generous K ->
  pagesize s = 0 \/ pagesize s = page_size K -> begin_gp s = nullptr ->
  0 < page_size K -> 2 <= pages_to_map pgs ->
  pages_to_map pgs * page_size K < two64 ->
  mmap K h (pages_to_map pgs * page_size K) = (h1, a) -> a <> MAP_FAILED ->
  init_pool K slot_size pgs s h
  = (true, fresh_arena slot_size a (pages_to_map pgs) (page_size K),
     with_page h1 (a + page_size K)) /\
  pool_inv slot_size (fresh_arena slot_size a (pages_to_map pgs) (page_size K))
  /\
  coupled K (fresh_arena slot_size a (pages_to_map pgs) (page_size K))
          (with_page h1 (a + page_size K)).
Proof.
  intros G Ps B Pp N W M F.
  destruct (mmap_spec _ _ _ _ _ M F) as (Ml & Ma & Mt & Mal & Mm).
  conjs.
  - apply init_pool_granted; assumption.
  - apply fresh_arena_inv; assumption.
  - apply fresh_arena_coupled; try assumption. rewrite Mm. left. reflexivity.
Qed.

End FreshArena.

(** ** Lazy initialization *)

(** X7. The first request made of a default-constructed pool initializes
    it: on a host that grants the mapping of ten pages and the commits, a
    request for [n] slots, [n] within the capacity of eight pages, maps ten
    pages and returns the first slot, one page after the start of the
    mapping; [n] slots are occupied afterwards and the rest of the eight
    pages' slots is free. *)
Theorem first_allocation_initializes K slot_size fuel n h h1 a :
  0 < slot_size -> generous K -> 0 < page_size K ->
  10 * page_size K < two64 ->
  mmap K h (10 * page_size K) = (h1, a) -> a <> MAP_FAILED ->
  0 <= n <= 8 * page_size K / slot_size -> (8 < fuel)%nat ->
  exists s' h',
    get_allocation K slot_size fuel n empty_pool h
    = Some (a + page_size K, s', h') /\
    begin_gp s' = a /\ pages_mmaped s' = 10 /\
    end_gp s' = a + 9 * page_size K /\
    occupied_slots s' = n /\
    free_slots_left s' = 8 * page_size K / slot_size - n /\
    pool_inv slot_size s' /\ coupled K s' h'.
Proof.
  intros Sl G Pp W M F N Fu.
  destruct (init_pool_fresh K slot_size Sl 0 empty_pool h h1 a G)
    as (E & I & C); auto; try (change (pages_to_map 0) with 10; lia).
  change (pages_to_map 0) with 10 in *.
  set (s0 := fresh_arena slot_size a 10 (page_size K)) in *.
  set (h0 := with_page h1 (a + page_size K)) in *.
  assert (G0 : get_allocation K slot_size fuel n empty_pool h
               = get_allocation K slot_size fuel n s0 h0).
  { rewrite (get_allocation_initialized K slot_size fuel n s0 h0)
      by (destruct I as [[] _ _ _]; unfold nullptr; lia).
    unfold get_allocation. change (begin_gp empty_pool =? nullptr) with true.
    cbv iota. rewrite E. reflexivity. }
  assert (Fr : free_slots_left s0 = 8 * page_size K / slot_size).
  { unfold s0, fresh_arena. pool_simpl. reflexivity. }
  destruct (get_allocation_granted K slot_size G Sl fuel n s0 h0 I C)
    as (s' & h' & E' & _ & C').
  { rewrite Fr. exact N. }
  { unfold s0. rewrite fresh_arena_pages_left by exact Pp. lia. }
  rewrite G0. exists s', h'.
  destruct (get_allocation_spec _ _ Sl _ _ _ _ _ _ _ I (proj1 N) E')
    as (I' & _ & _ & _ & [[X _] | (_ & _ & _ & s2 & A & Es)]).
  { exfalso. revert X. unfold s0, fresh_arena, nullptr. pool_simpl.
    destruct I as [[] _ _ _]. unfold s0, fresh_arena in *. pool_simpl. lia. }
  destruct (advanced_fields _ _ A) as (Eb & Ee & _ & _ & _ & _ & Ep).
  split.
  { rewrite E'. unfold s0, fresh_arena. pool_simpl.
    replace (a + page_size K + 0 * slot_size) with (a + page_size K) by ring.
    reflexivity. }
  assert (Fb : begin_gp s' = a) by (rewrite Es; exact Eb).
  assert (Fp : pages_mmaped s' = 10) by (rewrite Es; exact Ep).
  assert (Fe : end_gp s' = a + 9 * page_size K).
  { rewrite Es. pool_simpl. rewrite Ee. unfold s0, fresh_arena. pool_simpl.
    ring. }
  assert (Fo : occupied_slots s' = n) by (rewrite Es; reflexivity).
  assert (Ff : free_slots_left s' = 8 * page_size K / slot_size - n).
  { rewrite Es. pool_simpl. rewrite Fr. reflexivity. }
  auto 10.
Qed.

Lemma first_allocation_initializes_witness :
  exists s' h',
    get_allocation linux 8 9 5 empty_pool fresh_host
    = Some (65536 + 4096, s', h') /\
    pages_mmaped s' = 10 /\ free_slots_left s' = 8 * 4096 / 8 - 5.
Proof.
  destruct (first_allocation_initializes linux 8 9 5 fresh_host
              (mk_host [(65536, 40960)] [] 1) 65536)
    as (s' & h' & E & _ & Pm & _ & _ & Fr & _);
    [ lia | intros ? ?; reflexivity | reflexivity | reflexivity
    | reflexivity | discriminate | split; [lia | discriminate] | lia | ].
  exists s', h'. auto.
Defined.

(** ** Mappings too small to hold a usable page *)

(** X8. [init_pool] never succeeds with one page: the only page of the
    mapping is the leading guard page, the first usable page would lie past
    [end_gp], and the first commit is refused. *)
Theorem init_pool_one_page_fails K slot_size s h :
  0 <= pagesize s < two64 -> 0 < page_size K < two64 ->
  fst (fst (init_pool K slot_size 1 s h)) = false.
Proof.
  intros Ps Pk. unfold init_pool.
  set (s1 := if pagesize s =? 0 then snd (set_pagesize K s) else s).
  assert (P1 : 0 < pagesize s1 < two64).
  { unfold s1. destruct (Z.eqb_spec (pagesize s) 0); simpl; lia. }
  destruct ((pagesize s =? 0) && (pagesize s1 =? -1)); [reflexivity | ].
  destruct (negb (begin_gp s1 =? nullptr)); [reflexivity | ].
  change (pages_to_map 1) with 1.
  destruct (mmap K h (u64 (1 * u64 (pagesize s1)))) as [h1 a] eqn:M.
  destruct (Z.eqb_spec a MAP_FAILED) as [F | F]; [reflexivity | ].
  destruct (mmap_spec _ _ _ _ _ M F) as (Ml & Ma & Mt & _).
  rewrite (u64_small (pagesize s1)) in Ml, Mt by lia.
  rewrite Z.mul_1_l, (u64_small (pagesize s1)) in Ml, Mt by lia.
  assert (T : user_top < two64) by reflexivity.
  assert (C : commit_page K (allocation_area (laid_out slot_size s1 a 1))
                (laid_out slot_size s1 a 1) h1
              = (false, laid_out slot_size s1 a 1, h1)).
  { unfold commit_page, laid_out. pool_simpl.
    rewrite (u64_small (pagesize s1)) by lia.
    change (u64 (1 - 1)) with 0. rewrite Z.mul_0_l.
    change (u64 0) with 0. rewrite Z.add_0_r.
    rewrite (u64_small a) by lia.
    rewrite (u64_small (a + pagesize s1)) by lia.
    destruct (Z.ltb_spec a (a + pagesize s1)); [ | lia ].
    rewrite orb_true_r. reflexivity. }
  rewrite C.
  destruct (deinit_pool K (laid_out slot_size s1 a 1) h1) as [[ok s4] h3].
  reflexivity.
Qed.

(** X9. With two pages [init_pool] can succeed, but the arena has no
    usable page: [end_gp] is [allocation_area], the page committed as the
    first usable page is the trailing guard page, and no slot is free. *)
Theorem init_pool_two_pages K slot_size s h s' h' :
  pagesize s = 0 -> 0 < page_size K < two64 ->
  init_pool K slot_size 2 s h = (true, s', h') ->
  end_gp s' = allocation_area s' /\ free_slots_left s' = 0 /\
  In (end_gp s') (rw_pages h') /\
  forall fuel n, 0 < n ->
    get_allocation K slot_size fuel n s' h' = Some (nullptr, s', h').
Proof.
  intros Z0 Pk E.
  destruct (init_pool_success _ _ _ _ _ _ _ E)
    as (s1 & a & h1 & S1 & Ps & M & F & C).
  assert (P1 : pagesize s1 = page_size K).
  { rewrite S1, Z0. reflexivity. }
  change (pages_to_map 2) with 2 in *.
  destruct (commit_page_frame _ _ _ _ _ _ _ C) as (Es & _ & _).
  assert (Ee : end_gp s' = allocation_area s').
  { rewrite Es. unfold laid_out. pool_simpl.
    change (u64 (2 - 1)) with 1. rewrite Z.mul_1_l, u64_idem. reflexivity. }
  assert (Ef : free_slots_left s' = 0).
  { rewrite Es. unfold laid_out. pool_simpl.
    rewrite u64_mul_r, Z.sub_diag. reflexivity. }
  assert (Eb : begin_gp s' <> nullptr).
  { rewrite Es. unfold laid_out. pool_simpl.
    destruct (mmap_spec _ _ _ _ _ M F) as (_ & Ma & _). unfold nullptr. lia. }
  conjs; auto.
  - rewrite Ee, Es. unfold laid_out. pool_simpl.
    revert C. unfold commit_page, laid_out. pool_simpl.
    destruct (_ || _); [discriminate | ].
    destruct (mprotect K h1 _ _) as [h2 r] eqn:Mp.
    destruct (mprotect_spec _ _ _ _ _ _ Mp) as (_ & _ & [-> | ->] & _);
      simpl; [discriminate | ].
    intros X. injection X as _ <-.
    rewrite (mprotect_pages _ _ _ _ _ Mp), P1.
    rewrite (u64_small (page_size K)) by lia.
    rewrite pages_of_one by lia. left. reflexivity.
  - intros fuel n N. rewrite get_allocation_initialized by exact Eb.
    rewrite Ef. apply Z.ltb_lt in N. rewrite N. reflexivity.
Qed.

Lemma init_pool_two_pages_witness :
  init_pool linux 8 2 empty_pool fresh_host
  = (true, mk_pool 65536 69632 69632 73728 2 0 0 4096,
     mk_host [(65536, 8192)] [69632] 2) /\
  In 69632 (rw_pages (mk_host [(65536, 8192)] [69632] 2)).
Proof.
  split; [reflexivity | ].
  destruct (init_pool_two_pages linux 8 empty_pool fresh_host
              (mk_pool 65536 69632 69632 73728 2 0 0 4096)
              (mk_host [(65536, 8192)] [69632] 2))
    as (_ & _ & I & _); [ reflexivity | split; reflexivity | reflexivity | ].
  exact I.
Defined.

Lemma init_pool_one_page_fails_witness :
  fst (fst (init_pool linux 8 1 empty_pool fresh_host)) = false.
Proof.
  apply (init_pool_one_page_fails linux 8 empty_pool fresh_host);
    split; reflexivity || discriminate.
Defined.

(** ** A reservation that fails *)

Lemma u64_map_failed_plus ps :
  1 <= ps < two64 -> u64 (MAP_FAILED + ps) = ps - 1.
Proof.
  intros P. unfold u64, MAP_FAILED.
  replace (two64 - 1 + ps) with (ps - 1 + 1 * two64) by ring.
  rewrite Z.mod_add by discriminate. apply Z.mod_small. lia.
Qed.

(** X10. A reservation that fails is never tried again.  When [mmap]
    fails during the lazy initialization of a default-constructed pool,
    [begin_gp] is left at [MAP_FAILED], so the pool counts as initialized:
    the request returns null, every later [init_pool] is refused, every
    later request returns null without a system call granted, the teardown
    fails, and the destructor of a facade holding the pool throws. *)
Theorem reservation_failure_is_final K slot_size fuel h h1 :
  1 < page_size K < two64 ->
  mmap K h (u64 (10 * page_size K)) = (h1, MAP_FAILED) ->
  (forall n,
     get_allocation K slot_size fuel n empty_pool h
     = Some (nullptr, dead_pool (page_size K), h1)) /\
  (forall pgs h2,
     init_pool K slot_size pgs (dead_pool (page_size K)) h2
     = (false, dead_pool (page_size K), h2)) /\
  (forall n h2,
     0 <= n -> (0 < fuel)%nat ->
     get_allocation K slot_size fuel n (dead_pool (page_size K)) h2
     = Some (nullptr, dead_pool (page_size K), h2)) /\
  (forall h2,
     deinit_pool K (dead_pool (page_size K)) h2
     = (false, dead_pool (page_size K), tick h2)) /\
  (forall c h2,
     destroy K (mk_allocator c (dead_pool (page_size K))) h2
     = (runtime_error, mk_allocator c (dead_pool (page_size K)), tick h2)).
Proof.
  intros P M.
  assert (Pz : (page_size K =? 0) = false) by (apply Z.eqb_neq; lia).
  assert (Pm : (page_size K =? -1) = false) by (apply Z.eqb_neq; lia).
  assert (D : forall h2,
     deinit_pool K (dead_pool (page_size K)) h2
     = (false, dead_pool (page_size K), tick h2)).
  { intros h2. unfold deinit_pool, dead_pool. pool_simpl.
    change (MAP_FAILED =? nullptr) with false. cbv iota.
    rewrite Z.mul_0_l. change (u64 0) with 0. unfold munmap.
    change (0 <=? 0) with true. rewrite orb_true_r. reflexivity. }
  conjs.
  - intros n. unfold get_allocation, init_pool.
    change (begin_gp empty_pool =? nullptr) with true.
    change (pagesize empty_pool =? 0) with true. cbv iota.
    unfold set_pagesize. pool_simpl. rewrite Pm. simpl andb. cbv iota.
    change (begin_gp (set_pagesize_field empty_pool (page_size K))
            =? nullptr) with true.
    simpl negb. cbv iota. change (pages_to_map 0) with 10.
    rewrite (u64_small (page_size K)) by lia. rewrite M.
    rewrite Z.eqb_refl. reflexivity.
  - intros pgs h2. unfold init_pool, dead_pool. pool_simpl. rewrite Pz.
    simpl andb. cbv iota. reflexivity.
  - intros n h2 N Fu.
    rewrite get_allocation_initialized by discriminate.
    unfold dead_pool at 1. pool_simpl.
    destruct (Z.ltb_spec 0 n); [reflexivity | ].
    assert (n = 0) by lia. subst n.
    assert (Eb : u64 (slot_add slot_size
                        (frontier slot_size (dead_pool (page_size K))) 0 - 1)
                 = two64 - 1) by reflexivity.
    rewrite Eb. unfold checked_range_commit.
    change (first_not_commited (dead_pool (page_size K))) with 0.
    change (0 <? two64 - 1) with true. cbv iota.
    destruct fuel as [ | fuel ]; [lia | ]. simpl commit_loop.
    unfold commit_page. unfold dead_pool at 1 2. pool_simpl.
    rewrite (u64_small (page_size K)) by lia.
    rewrite u64_map_failed_plus by lia.
    destruct (Z.ltb_spec 0 (page_size K - 1)); [ | lia ].
    reflexivity.
  - exact D.
  - intros c h2. unfold destroy. cbn [_pool objs_number].
    change (begin_gp (dead_pool (page_size K)) =? nullptr) with false.
    simpl negb. cbv iota. rewrite D. reflexivity.
Qed.

Lemma reservation_failure_is_final_witness :
  get_allocation barren 8 1 5 empty_pool fresh_host
  = Some (nullptr, dead_pool 4096, tick fresh_host) /\
  get_allocation barren 8 1 5 (dead_pool 4096) (tick fresh_host)
  = Some (nullptr, dead_pool 4096, tick fresh_host) /\
  destroy barren (mk_allocator 10 (dead_pool 4096)) (tick fresh_host)
  = (runtime_error, mk_allocator 10 (dead_pool 4096),
     tick (tick fresh_host)).
Proof.
  destruct (reservation_failure_is_final barren 8 1 fresh_host
              (tick fresh_host)) as (A & _ & B & _ & D);
    [ split; reflexivity | reflexivity | ].
  split; [ apply A | ].
  split; [ apply B; lia | apply D ].
Defined.

(** ** Teardown *)

(** X11. A teardown that succeeds resets every member but the page size,
    removes the mapping and leaves no page inside it accessible; a second
    [deinit_pool] on the pool is refused and changes nothing.  The
    destructor of a facade holding the pool ends normally. *)
Theorem teardown_resets K s h s' h' :
  deinit_pool K s h = (true, s', h') ->
  s' = mk_pool nullptr nullptr nullptr nullptr 0 0 0 (pagesize s) /\
  ~ In (begin_gp s, u64 (pages_mmaped s * u64 (pagesize s))) (mappings h') /\
  (forall q, In q (rw_pages h') ->
     In q (rw_pages h) /\
     ~ (begin_gp s <= q
        < begin_gp s + u64 (pages_mmaped s * u64 (pagesize s)))) /\
  deinit_pool K s' h' = (false, s', h') /\
  (forall c,
     destroy K (mk_allocator c s) h = (ended, mk_allocator c s', h')).
Proof.
  intros E.
  assert (X := E). revert X. unfold deinit_pool.
  destruct (Z.eqb_spec (begin_gp s) nullptr) as [B | B]; [discriminate | ].
  set (len := u64 (pages_mmaped s * u64 (pagesize s))).
  destruct (munmap K h (begin_gp s) len) as [h1 r] eqn:M.
  destruct (r =? -1) eqn:R; [discriminate | ].
  intros X. injection X as <- <-.
  revert M. unfold munmap.
  destruct (negb (begin_gp s mod page_size K =? 0) || (len <=? 0)) eqn:G;
    [ intros M; injection M as <- <-; discriminate | ].
  destruct (negb (munmap_grant K (syscalls h)));
    [ intros M; injection M as <- <-; discriminate | ].
  intros M. injection M as <- <-.
  apply orb_false_iff in G. destruct G as [_ G]. apply Z.leb_gt in G.
  conjs.
  - reflexivity.
  - simpl. intros I. apply filter_In in I. destruct I as [_ I].
    unfold inside in I. simpl in I.
    rewrite Z.leb_refl, Z.leb_refl in I. discriminate.
  - intros q Q. simpl in Q. apply filter_In in Q. destruct Q as [Q1 Q2].
    split; [exact Q1 | ]. intros [Q3 Q4].
    apply Z.leb_le in Q3. apply Z.ltb_lt in Q4.
    rewrite Q3, Q4 in Q2. discriminate.
  - reflexivity.
  - intros c. unfold destroy. cbn [_pool objs_number].
    apply Z.eqb_neq in B. rewrite B. simpl negb. cbv iota.
    rewrite E. reflexivity.
Qed.

Lemma teardown_resets_witness :
  deinit_pool linux arena4 host4
  = (true, mk_pool 0 0 0 0 0 0 0 4096, mk_host [] [] 3) /\
  deinit_pool linux (mk_pool 0 0 0 0 0 0 0 4096) (mk_host [] [] 3)
  = (false, mk_pool 0 0 0 0 0 0 0 4096, mk_host [] [] 3).
Proof.
  split; [reflexivity | ].
  destruct (teardown_resets linux arena4 host4
              (mk_pool 0 0 0 0 0 0 0 4096) (mk_host [] [] 3))
    as (_ & _ & _ & D & _); [reflexivity | exact D].
Defined.

(** ** Freeing and allocating again *)

Section Reuse.

Variable K : kernel.
Variable slot_size : Z.
Hypothesis slot_size_pos : 0 < slot_size.

(** A request that is served, in terms of the counters. *)
Lemma get_allocation_served fuel n s h p s' h' :
  pool_inv slot_size s -> 0 <= n ->
  get_allocation K slot_size fuel n s h = Some (p, s', h') ->
  p <> nullptr ->
  pool_inv slot_size s' /\
  p = allocation_area s + occupied_slots s * slot_size /\
  allocation_area s' = allocation_area s /\
  occupied_slots s' = occupied_slots s + n /\
  free_slots_left s' = free_slots_left s - n /\
  n <= free_slots_left s /\
  first_not_commited s <= first_not_commited s'.
Proof.
  intros I N E P.
  destruct (get_allocation_spec _ _ slot_size_pos _ _ _ _ _ _ _ I N E)
    as (I' & _ & _ & Fc & [[Pn _] | (_ & Le & Ep & s2 & A & ->)]);
    [ contradiction | ].
  destruct (advanced_fields _ _ A) as (_ & _ & Ea & _).
  pool_simpl. conjs; auto.
Qed.

(** A free that fits, in terms of the counters. *)
Lemma delete_allocation_freed ptr n s :
  pool_inv slot_size s -> ptr <> nullptr -> 0 <= n <= occupied_slots s ->
  fst (delete_allocation ptr n s) = true /\
  pool_inv slot_size (snd (delete_allocation ptr n s)) /\
  allocation_area (snd (delete_allocation ptr n s)) = allocation_area s /\
  occupied_slots (snd (delete_allocation ptr n s)) = occupied_slots s - n /\
  free_slots_left (snd (delete_allocation ptr n s)) = free_slots_left s + n /\
  first_not_commited (snd (delete_allocation ptr n s))
  = first_not_commited s.
Proof.
  intros I P N.
  destruct (delete_allocation_kept slot_size slot_size_pos ptr n s I N)
    as [I' _].
  revert I'. unfold delete_allocation.
  apply Z.eqb_neq in P. rewrite P.
  rewrite (layout_not_null s) by (destruct I; assumption).
  pose proof (capacity_bytes _ slot_size_pos s I) as C.
  destruct I as [L O F E].
  assert (B : occupied_slots s + free_slots_left s < two64)
    by (destruct L; nia).
  pool_simpl. rewrite !u64_small by lia. intros I'.
  conjs; auto.
Qed.

End Reuse.

(** X12. Allocate, free, allocate.  Freeing the block that was allocated
    last, with its own count, puts both counters back where they were before
    the allocation, keeps the committed pages committed, and the next
    request that is served gets the same address again. *)
Theorem free_then_allocate_reuses K slot_size fuel n s h p s1 h1 :
  0 < slot_size -> pool_inv slot_size s -> 0 <= n ->
  get_allocation K slot_size fuel n s h = Some (p, s1, h1) ->
  p <> nullptr ->
  fst (delete_allocation p n s1) = true /\
  occupied_slots (snd (delete_allocation p n s1)) = occupied_slots s /\
  free_slots_left (snd (delete_allocation p n s1)) = free_slots_left s /\
  first_not_commited s
  <= first_not_commited (snd (delete_allocation p n s1)) /\
  forall m q s2 h2,
    0 <= m ->
    get_allocation K slot_size fuel m (snd (delete_allocation p n s1)) h1
    = Some (q, s2, h2) ->
    q <> nullptr -> q = p.
Proof.
  intros Sl I N E P.
  destruct (get_allocation_served K slot_size Sl _ _ _ _ _ _ _ I N E P)
    as (I1 & Ep & Ea & Eo & Ef & Le & Fc).
  assert (O : 0 <= occupied_slots s) by (destruct I; assumption).
  destruct (delete_allocation_freed slot_size Sl p n s1 I1 P)
    as (D & I2 & Da & Do & Df & Dc); [lia | ].
  split; [exact D | ]. split; [lia | ]. split; [lia | ].
  split; [lia | ].
  intros m q s2 h2 M E2 Q.
  destruct (get_allocation_served K slot_size Sl _ _ _ _ _ _ _ I2 M E2 Q)
    as (_ & Eq & _).
  rewrite Eq, Da, Do, Ea, Eo, Ep. f_equal. f_equal. lia.
Qed.

Lemma free_then_allocate_reuses_witness :
  get_allocation linux 8 3 5 arena4 host4
  = Some (69632, set_slots arena4 5 1019, host4) /\
  fst (delete_allocation 69632 5 (set_slots arena4 5 1019)) = true /\
  occupied_slots (snd (delete_allocation 69632 5 (set_slots arena4 5 1019)))
  = 0 /\
  free_slots_left (snd (delete_allocation 69632 5 (set_slots arena4 5 1019)))
  = 1024.
Proof.
  split; [reflexivity | ].
  destruct (free_then_allocate_reuses linux 8 3 5 arena4 host4 69632
              (set_slots arena4 5 1019) host4)
    as (D & O & F & _);
    [ lia | exact arena4_inv | lia | reflexivity | discriminate | ].
  split; [exact D | ]. split; [exact O | exact F].
Defined.

(** X13. Freeing a block that is not the last one does not make its slots
    available: the bump frontier moves back by the count freed, whatever
    the pointer.  With a block of [a] slots followed by a block of [b >= a]
    slots, freeing the first one makes the next request that is served start
    [b - a] slots into the second block, which is still in use. *)
Theorem free_of_inner_block_overlaps
        K slot_size fuel a b c s h p s1 h1 q s2 h2 r s3 h3 :
  0 < slot_size -> pool_inv slot_size s -> 0 < a <= b -> 0 <= c ->
  get_allocation K slot_size fuel a s h = Some (p, s1, h1) ->
  p <> nullptr ->
  get_allocation K slot_size fuel b s1 h1 = Some (q, s2, h2) ->
  q <> nullptr ->
  get_allocation K slot_size fuel c (snd (delete_allocation p a s2)) h2
  = Some (r, s3, h3) ->
  r <> nullptr ->
  r = q + (b - a) * slot_size /\ q <= r < q + b * slot_size.
Proof.
  intros Sl I AB C E1 P E2 Q E3 R.
  assert (O : 0 <= occupied_slots s) by (destruct I; assumption).
  assert (A0 : 0 <= a) by lia. assert (B0 : 0 <= b) by lia.
  destruct (get_allocation_served K slot_size Sl _ _ _ _ _ _ _ I A0 E1 P)
    as (I1 & Ep & Ea & Eo & _).
  destruct (get_allocation_served K slot_size Sl _ _ _ _ _ _ _ I1 B0 E2 Q)
    as (I2 & Eq & Ea2 & Eo2 & _).
  destruct (delete_allocation_freed slot_size Sl p a s2 I2 P)
    as (_ & I3 & Da & Do & _); [lia | ].
  destruct (get_allocation_served K slot_size Sl _ _ _ _ _ _ _ I3 C E3 R)
    as (_ & Er & _).
  assert (X : r = q + (b - a) * slot_size).
  { rewrite Er, Da, Do, Eo2, Eq, Ea2, Ea, Eo. ring. }
  split; [exact X | ]. nia.
Qed.

Lemma free_of_inner_block_overlaps_witness :
  get_allocation linux 8 3 2 arena4 host4
  = Some (69632, set_slots arena4 2 1022, host4) /\
  get_allocation linux 8 3 3 (set_slots arena4 2 1022) host4
  = Some (69648, set_slots arena4 5 1019, host4) /\
  get_allocation linux 8 3 1
    (snd (delete_allocation 69632 2 (set_slots arena4 5 1019))) host4
  = Some (69656, set_slots arena4 4 1020, host4) /\
  69648 <= 69656 < 69648 + 3 * 8.
Proof.
  split; [reflexivity | ]. split; [reflexivity | ].
  split; [reflexivity | ].
  apply (free_of_inner_block_overlaps linux 8 3 2 3 1 arena4 host4
           69632 (set_slots arena4 2 1022) host4
           69648 (set_slots arena4 5 1019) host4
           69656 (set_slots arena4 4 1020) host4);
    try reflexivity; try discriminate; try lia.
  exact arena4_inv.
Defined.

(** ** Copies and swaps *)

(** What the copy constructor does once the host has granted the
    mapping. *)
Lemma copy_construct_granted K slot_size other h h1 a :
  generous K -> 0 < slot_size -> 0 < page_size K ->
  pagesize other = 0 \/ pagesize other = page_size K ->
  2 <= pages_to_map (pages_mmaped other) ->
  pages_to_map (pages_mmaped other) * page_size K < two64 ->
  mmap K h (pages_to_map (pages_mmaped other) * page_size K) = (h1, a) ->
  a <> MAP_FAILED ->
  copy_construct K slot_size other h
  = (fresh_arena slot_size a (pages_to_map (pages_mmaped other))
                 (page_size K),
     with_page h1 (a + page_size K)) /\
  pool_inv slot_size
    (fresh_arena slot_size a (pages_to_map (pages_mmaped other))
                 (page_size K)) /\
  mappings (with_page h1 (a + page_size K))
  = (a, pages_to_map (pages_mmaped other) * page_size K) :: mappings h.
Proof.
  intros G Sl Pp Ps N W M F.
  destruct (mmap_spec _ _ _ _ _ M F) as (Ml & Ma & Mt & Mal & Mm).
  unfold copy_construct. cbn [pages_mmaped].
  destruct (init_pool_fresh K slot_size Sl (pages_mmaped other)
              (mk_pool nullptr nullptr nullptr nullptr (pages_mmaped other)
                 (occupied_slots other) (free_slots_left other)
                 (pagesize other)) h h1 a G Ps eq_refl Pp N W M F)
    as (E & I & _).
  rewrite E. conjs; [reflexivity | exact I | exact Mm].
Qed.

(** A new mapping placed apart from the existing ones does not overlap the
    mapping of an arena the host knows. *)
Lemma apart_from_arena K other h a len :
  apart h a len = true -> layout_ok other -> coupled K other h -> 0 < len ->
  (a + len <= begin_gp other \/ end_gp other + pagesize other <= a) /\
  a <> begin_gp other.
Proof.
  intros A L C Len. unfold apart in A. rewrite forallb_forall in A.
  destruct C as [_ _ Cm]. specialize (A _ Cm). simpl in A.
  apply orb_true_iff in A. destruct L.
  destruct A as [A | A]; apply Z.leb_le in A; split; lia.
Qed.

(** X14. A copy of a pool is a new, empty arena.  On a host that grants
    the mapping and the commit, the copy constructor maps as many pages as
    the original has (ten when the original was never initialized) and
    leaves every slot free: the counters it copied from the original are
    overwritten, no allocation of the original is carried over, and the
    original's mapping stays in place.  When the host places the new
    mapping apart from the existing ones, the arena of the copy does not
    overlap the arena of an initialized original. *)
Theorem copy_construct_is_fresh K slot_size other h h1 a :
  generous K -> 0 < slot_size -> 0 < page_size K ->
  pagesize other = 0 \/ pagesize other = page_size K ->
  2 <= pages_to_map (pages_mmaped other) ->
  pages_to_map (pages_mmaped other) * page_size K < two64 ->
  mmap K h (pages_to_map (pages_mmaped other) * page_size K) = (h1, a) ->
  a <> MAP_FAILED ->
  copy_construct K slot_size other h
  = (fresh_arena slot_size a (pages_to_map (pages_mmaped other))
                 (page_size K),
     with_page h1 (a + page_size K)) /\
  pool_inv slot_size
    (fresh_arena slot_size a (pages_to_map (pages_mmaped other))
                 (page_size K)) /\
  mappings (with_page h1 (a + page_size K))
  = (a, pages_to_map (pages_mmaped other) * page_size K) :: mappings h /\
  (apart h a (pages_to_map (pages_mmaped other) * page_size K) = true ->
   layout_ok other -> coupled K other h ->
   (a + pages_to_map (pages_mmaped other) * page_size K <= begin_gp other \/
    end_gp other + pagesize other <= a) /\
   begin_gp (fresh_arena slot_size a (pages_to_map (pages_mmaped other))
                         (page_size K))
   <> begin_gp other).
Proof.
  intros G Sl Pp Ps N W M F.
  destruct (copy_construct_granted K slot_size other h h1 a
              G Sl Pp Ps N W M F) as (E & I & Mm).
  conjs; [exact E | exact I | exact Mm | ].
  intros A L C. apply (apart_from_arena K other h a _ A L C). nia.
Qed.

Lemma copy_construct_is_fresh_witness :
  copy_construct roomy 8 (set_slots arena4 700 324) host4
  = (fresh_arena 8 2162688 4 4096,
     with_page (mk_host [(2162688, 16384); (65536, 16384)] [69632] 3)
               2166784) /\
  (2162688 + pages_to_map 4 * 4096 <= 65536 \/ 77824 + 4096 <= 2162688).
Proof.
  destruct (copy_construct_is_fresh roomy 8 (set_slots arena4 700 324)
              host4 (mk_host [(2162688, 16384); (65536, 16384)] [69632] 3)
              2162688) as (E & _ & _ & D);
    [ intros n a; reflexivity | lia | reflexivity | right; reflexivity
    | vm_compute; discriminate | reflexivity | reflexivity
    | discriminate | ].
  split; [exact E | ].
  apply D.
  - reflexivity.
  - apply layout_set_slots. destruct arena4_inv; assumption.
  - constructor; [reflexivity | reflexivity | left; reflexivity].
Defined.

(** X15. [swap] does not exchange two pools.  On a host that grants the
    mapping and the commit and places the new mapping apart from the
    existing ones, with [other] initialized and the two pools holding
    different arenas, [other] ends up with the arena of [*this], and
    [*this] with a new, empty arena of as many pages as [other] had: the
    arena that [other] had starts where neither pool's arena starts
    afterwards, and its mapping is still among the host's. *)
Theorem pool_swap_loses_other K slot_size this other h h1 a :
  generous K -> 0 < slot_size -> 0 < page_size K ->
  pagesize other = 0 \/ pagesize other = page_size K ->
  2 <= pages_to_map (pages_mmaped other) ->
  pages_to_map (pages_mmaped other) * page_size K < two64 ->
  mmap K h (pages_to_map (pages_mmaped other) * page_size K) = (h1, a) ->
  a <> MAP_FAILED ->
  apart h a (pages_to_map (pages_mmaped other) * page_size K) = true ->
  layout_ok other -> coupled K other h ->
  begin_gp this <> begin_gp other ->
  pool_swap K slot_size this other h
  = (fresh_arena slot_size a (pages_to_map (pages_mmaped other))
                 (page_size K),
     this,
     with_page h1 (a + page_size K)) /\
  (forall this' other' h',
     pool_swap K slot_size this other h = (this', other', h') ->
     begin_gp this' <> begin_gp other /\
     begin_gp other' <> begin_gp other /\
     In (begin_gp other, end_gp other + pagesize other - begin_gp other)
        (mappings h')).
Proof.
  intros G Sl Pp Ps N W M F A L C D.
  destruct (copy_construct_granted K slot_size other h h1 a
              G Sl Pp Ps N W M F) as (E & _ & Mm).
  assert (S : pool_swap K slot_size this other h
              = (fresh_arena slot_size a (pages_to_map (pages_mmaped other))
                   (page_size K),
                 this, with_page h1 (a + page_size K))).
  { unfold pool_swap. rewrite E. unfold move_assign, fresh_arena.
    pool_simpl. destruct this; reflexivity. }
  split; [exact S | ].
  intros this' other' h' X. rewrite S in X. injection X as <- <- <-.
  destruct (apart_from_arena K other h a _ A L C) as [_ Na]; [nia | ].
  conjs.
  - exact Na.
  - exact D.
  - rewrite Mm. right. destruct C as [_ _ Cm]. exact Cm.
Qed.

Lemma pool_swap_loses_other_witness :
  pool_swap roomy 8 empty_pool (set_slots arena4 700 324) host4
  = (fresh_arena 8 2162688 4 4096, empty_pool,
     with_page (mk_host [(2162688, 16384); (65536, 16384)] [69632] 3)
               2166784).
Proof.
  destruct (pool_swap_loses_other roomy 8 empty_pool
              (set_slots arena4 700 324)
              host4 (mk_host [(2162688, 16384); (65536, 16384)] [69632] 3)
              2162688) as (E & _);
    [ intros n a; reflexivity | lia | reflexivity | right; reflexivity
    | vm_compute; discriminate | reflexivity | reflexivity
    | discriminate | reflexivity
    | apply layout_set_slots; destruct arena4_inv; assumption
    | constructor; [reflexivity | reflexivity | left; reflexivity]
    | discriminate | ].
  exact E.
Defined.

(** ** Copies of the facade *)

Section Obliging.

Variable K : kernel.
Variable slot_size : Z.
Hypothesis slot_size_pos : 0 < slot_size.
Hypothesis page_pos : 0 < page_size K.
Hypothesis granted : generous K.
Hypothesis released : forall n, munmap_grant K n = true.

Lemma mmap_placed h len :
  places K len -> 0 < len ->
  exists h1 a, mmap K h len = (h1, a) /\ a <> MAP_FAILED.
Proof.
  intros Pl L. destruct (Pl (syscalls h)) as (A1 & A2 & A3).
  unfold mmap.
  destruct (Z.ltb_spec 0 len); [ | lia ].
  destruct (Z.ltb_spec 0 (mmap_pick K (syscalls h) len)); [ | lia ].
  rewrite A2, Z.eqb_refl.
  destruct (Z.leb_spec (mmap_pick K (syscalls h) len + len) user_top);
    [ | lia ].
  simpl andb. cbv iota. eexists. eexists. split; [reflexivity | ].
  assert (user_top < MAP_FAILED) by reflexivity. lia.
Qed.

Lemma deinit_pool_mapped s h :
  mapped K s ->
  exists h',
    deinit_pool K s h
    = (true, mk_pool nullptr nullptr nullptr nullptr 0 0 0 (pagesize s), h').
Proof.
  intros (B & Al & Ps & N & W). unfold deinit_pool.
  apply Z.eqb_neq in B. rewrite B. rewrite Ps.
  rewrite (u64_small (page_size K)) by nia.
  rewrite (u64_small (pages_mmaped s * page_size K)) by nia.
  unfold munmap. rewrite Al, Z.eqb_refl. simpl negb.
  destruct (Z.leb_spec (pages_mmaped s * page_size K) 0); [nia | ].
  simpl orb. cbv iota. rewrite released. simpl negb. cbv iota.
  simpl Z.eqb. cbv iota. eexists. reflexivity.
Qed.

(** The host a granted teardown leaves: no mapping and no accessible
    page inside the range of the arena. *)
Lemma deinit_pool_torn s h :
  mapped K s ->
  exists h',
    deinit_pool K s h
    = (true, mk_pool nullptr nullptr nullptr nullptr 0 0 0 (page_size K),
       h') /\
    ~ In (begin_gp s, pages_mmaped s * page_size K) (mappings h') /\
    forall q, In q (rw_pages h') ->
      ~ (begin_gp s <= q < begin_gp s + pages_mmaped s * page_size K).
Proof.
  intros (B & Al & Ps & N & W). unfold deinit_pool.
  apply Z.eqb_neq in B. rewrite B. rewrite Ps.
  rewrite (u64_small (page_size K)) by nia.
  rewrite (u64_small (pages_mmaped s * page_size K)) by nia.
  unfold munmap. rewrite Al, Z.eqb_refl. simpl negb.
  destruct (Z.leb_spec (pages_mmaped s * page_size K) 0); [nia | ].
  simpl orb. cbv iota. rewrite released. simpl negb. cbv iota.
  simpl Z.eqb. cbv iota. eexists. split; [reflexivity | ]. split.
  - simpl. intros I. apply filter_In in I. destruct I as [_ I].
    unfold inside in I. simpl in I.
    rewrite Z.leb_refl, Z.leb_refl in I. discriminate.
  - intros q Q. simpl in Q. apply filter_In in Q. destruct Q as [_ Q2].
    intros [Q3 Q4]. apply Z.leb_le in Q3. apply Z.ltb_lt in Q4.
    rewrite Q3, Q4 in Q2. discriminate.
Qed.

Lemma init_pool_placed pgs s h :
  places K (pages_to_map pgs * page_size K) ->
  pagesize s = 0 \/ pagesize s = page_size K -> begin_gp s = nullptr ->
  2 <= pages_to_map pgs -> pages_to_map pgs * page_size K < two64 ->
  exists a h',
    init_pool K slot_size pgs s h
    = (true, fresh_arena slot_size a (pages_to_map pgs) (page_size K), h') /\
    mapped K (fresh_arena slot_size a (pages_to_map pgs) (page_size K)).
Proof.
  intros Pl Ps B N W.
  destruct (mmap_placed h _ Pl) as (h1 & a & M & F); [nia | ].
  destruct (mmap_spec _ _ _ _ _ M F) as (Ml & Ma & Mt & Mal & Mm).
  exists a, (with_page h1 (a + page_size K)). split.
  - apply init_pool_granted; assumption.
  - unfold mapped, fresh_arena. pool_simpl.
    conjs; auto. unfold nullptr. lia.
Qed.

Lemma pages_to_map_mapped s : mapped K s ->
  pages_to_map (pages_mmaped s) = pages_mmaped s.
Proof.
  intros (_ & _ & _ & N & _). unfold pages_to_map.
  destruct (Z.eqb_spec (pages_mmaped s) 0); [lia | reflexivity].
Qed.

Lemma copy_construct_placed other h :
  mapped K other -> places K (pages_mmaped other * page_size K) ->
  exists a h',
    copy_construct K slot_size other h
    = (fresh_arena slot_size a (pages_mmaped other) (page_size K), h') /\
    mapped K (fresh_arena slot_size a (pages_mmaped other) (page_size K)).
Proof.
  intros Mo Pl. pose proof (pages_to_map_mapped _ Mo) as Pm.
  destruct Mo as (_ & _ & Ps & N & W).
  unfold copy_construct. cbn [pages_mmaped].
  destruct (init_pool_placed (pages_mmaped other)
              (mk_pool nullptr nullptr nullptr nullptr (pages_mmaped other)
                 (occupied_slots other) (free_slots_left other)
                 (pagesize other)) h) as (a & h' & E & Ma);
    rewrite ?Pm; auto.
  rewrite Pm in E, Ma. rewrite E. exists a, h'. split; [reflexivity | exact Ma].
Qed.

Lemma copy_assign_placed this other h :
  mapped K this \/ begin_gp this = nullptr ->
  mapped K other -> places K (pages_mmaped other * page_size K) ->
  exists a h',
    copy_assign K slot_size this other h
    = (fresh_arena slot_size a (pages_mmaped other) (page_size K), h') /\
    mapped K (fresh_arena slot_size a (pages_mmaped other) (page_size K)).
Proof.
  intros Mt Mo Pl. pose proof (pages_to_map_mapped _ Mo) as Pm.
  destruct Mo as (_ & _ & Ps & N & W).
  unfold copy_assign.
  assert (D : exists s1 h1 ok,
             deinit_pool K this h = (ok, s1, h1) /\ begin_gp s1 = nullptr).
  { destruct Mt as [Mt | B].
    - destruct (deinit_pool_mapped this h Mt) as (h1 & E).
      rewrite E. eexists. eexists. eexists. split; reflexivity.
    - unfold deinit_pool. apply Z.eqb_eq in B. rewrite B.
      apply Z.eqb_eq in B. eexists. eexists. eexists.
      split; [reflexivity | exact B]. }
  destruct D as (s1 & h1 & ok & E & B). rewrite E. cbn [pages_mmaped].
  destruct (init_pool_placed (pages_mmaped other)
              (mk_pool (begin_gp s1) (end_gp s1) (allocation_area s1)
                 (first_not_commited s1) (pages_mmaped other)
                 (occupied_slots other) (free_slots_left other)
                 (pagesize other)) h1) as (a & h' & E2 & Ma);
    rewrite ?Pm; auto.
  rewrite Pm in E2, Ma. rewrite E2.
  exists a, h'. split; [reflexivity | exact Ma].
Qed.

End Obliging.

(** X16. Assigning a facade to another one, by copy or by move, copies
    neither allocations nor addresses.  Between two facades that hold
    different arenas, on a host that grants every request and has a place
    for the mapping, the arena of the target is torn down first: its mapping
    is removed and none of its pages stays accessible.  Then the target gets
    a new, well-formed arena of as many pages as the source has, with every
    slot free, whatever the source has allocated. *)
Theorem allocator_assign_is_fresh K slot_size this other h :
  0 < slot_size -> 0 < page_size K -> generous K ->
  (forall n, munmap_grant K n = true) ->
  mapped K (_pool this) -> mapped K (_pool other) ->
  begin_gp (_pool this) <> begin_gp (_pool other) ->
  places K (pages_mmaped (_pool other) * page_size K) ->
  exists h1 h2 a,
    deinit_pool K (_pool this) h
    = (true, mk_pool nullptr nullptr nullptr nullptr 0 0 0 (page_size K),
       h1) /\
    ~ In (begin_gp (_pool this),
          pages_mmaped (_pool this) * page_size K) (mappings h1) /\
    (forall q, In q (rw_pages h1) ->
       ~ (begin_gp (_pool this) <= q
          < begin_gp (_pool this)
            + pages_mmaped (_pool this) * page_size K)) /\
    mmap K h1 (pages_mmaped (_pool other) * page_size K) = (h2, a) /\
    a <> MAP_FAILED /\
    allocator_assign K slot_size this other h
    = (mk_allocator (objs_number this)
         (fresh_arena slot_size a (pages_mmaped (_pool other)) (page_size K)),
       with_page h2 (a + page_size K)) /\
    pool_inv slot_size
      (fresh_arena slot_size a (pages_mmaped (_pool other)) (page_size K)).
Proof.
  intros Sl Pp G R Mt Mo Distinct Pl.
  destruct (deinit_pool_torn K Pp R (_pool this) h Mt)
    as (h1 & E & Nm & Nq).
  pose proof (pages_to_map_mapped K (_pool other) Mo) as Pm.
  destruct Mo as (_ & _ & Ps & N & W).
  destruct (mmap_placed K h1 _ Pl) as (h2 & a & M & F); [nia | ].
  destruct (mmap_spec _ _ _ _ _ M F) as (Ml & Ma & Mu & Mal & Mm).
  exists h1, h2, a. conjs; auto.
  - unfold allocator_assign, copy_assign. rewrite E.
    cbn [begin_gp end_gp allocation_area first_not_commited pages_mmaped].
    rewrite (init_pool_granted K slot_size G (pages_mmaped (_pool other))
               _ h1 h2 a); rewrite ?Pm; auto.
  - apply fresh_arena_inv; auto.
Qed.

Lemma roomy_places len : 0 < len <= 1048576 -> places roomy len.
Proof.
  intros L n. cbn [mmap_pick page_size roomy].
  assert (B : 0 <= Z.of_nat (Nat.modulo n 16) < 16).
  { pose proof (Nat.mod_upper_bound n 16). lia. }
  set (j := Z.of_nat (Nat.modulo n 16)) in *.
  conjs; [lia | | unfold user_top; lia].
  replace (65536 + j * 1048576) with ((16 + j * 256) * 4096) by ring.
  apply Z.mod_mul. discriminate.
Qed.

Lemma arena4_mapped : mapped roomy arena4.
Proof.
  unfold mapped. conjs; try reflexivity; try discriminate.
Qed.

Lemma allocator_assign_is_fresh_witness :
  exists h1 h2 a,
    mmap roomy h1 (4 * 4096) = (h2, a) /\
    allocator_assign roomy 8 (mk_allocator 10 (set_slots arena4 700 324))
      (mk_allocator 10 (set_slots (fresh_arena 8 2162688 4 4096) 5 1019))
      (with_page (mk_host [(2162688, 16384); (65536, 16384)] [69632] 3)
                 2166784)
    = (mk_allocator 10 (fresh_arena 8 a 4 4096), with_page h2 (a + 4096)).
Proof.
  destruct (allocator_assign_is_fresh roomy 8
              (mk_allocator 10 (set_slots arena4 700 324))
              (mk_allocator 10
                 (set_slots (fresh_arena 8 2162688 4 4096) 5 1019))
              (with_page
                 (mk_host [(2162688, 16384); (65536, 16384)] [69632] 3)
                 2166784))
    as (h1 & h2 & a & _ & _ & _ & M & _ & E & _);
    [ lia | reflexivity | intros n a; reflexivity | intros n; reflexivity
    | exact arena4_mapped
    | unfold mapped; conjs; try reflexivity; discriminate
    | discriminate
    | apply roomy_places; cbn; lia | ].
  exists h1, h2, a. split; [exact M | exact E].
Defined.



(** ** Growing a vector in place *)

Section VectorGrowth.

Variable slot_size : Z.
Hypothesis slot_size_pos : 0 < slot_size.

Lemma size_mk p sz cap a :
  0 <= sz < two64 ->
  size slot_size
    (mk_vector p (p + sz * slot_size) (p + cap * slot_size) a) = sz.
Proof.
  intros B. unfold size, ptr_diff. cbn [_M_start _M_finish].
  replace (p + sz * slot_size - p) with (sz * slot_size) by ring.
  rewrite Z.quot_mul by lia. apply u64_small, B.
Qed.

Lemma capacity_mk p sz cap a :
  0 <= cap < two64 ->
  capacity slot_size
    (mk_vector p (p + sz * slot_size) (p + cap * slot_size) a) = cap.
Proof.
  intros B. unfold capacity, ptr_diff. cbn [_M_start _M_end_of_storage].
  replace (p + cap * slot_size - p) with (cap * slot_size) by ring.
  rewrite Z.quot_mul by lia. apply u64_small, B.
Qed.

Lemma _S_max_size_range a :
  0 <= objs_number a ->
  0 <= _S_max_size slot_size a <= PTRDIFF_MAX / slot_size /\
  PTRDIFF_MAX / slot_size <= PTRDIFF_MAX.
Proof.
  intros O.
  assert (D : 0 <= PTRDIFF_MAX / slot_size <= PTRDIFF_MAX).
  { split; [ apply Z.div_pos; [discriminate | lia] | ].
    apply Z.div_le_upper_bound; [lia | ].
    assert (0 <= PTRDIFF_MAX) by discriminate. nia. }
  unfold _S_max_size, max_size, _M_max_size.
  destruct (objs_number a =? 0); lia.
Qed.

(** The length [_M_check_len] asks for, without the wrap-around. *)
Lemma check_len_value p sz cap a n :
  0 <= objs_number a -> 0 <= sz <= _S_max_size slot_size a -> 0 <= n ->
  _M_check_len slot_size n
    (mk_vector p (p + sz * slot_size) (p + cap * slot_size) a)
  = if _S_max_size slot_size a - sz <? n then None
    else Some (Z.min (_S_max_size slot_size a) (sz + Z.max sz n)).
Proof.
  intros O S N. destruct (_S_max_size_range a O) as [M1 M2].
  assert (T : PTRDIFF_MAX < two64 / 2) by reflexivity.
  assert (T2 : two64 / 2 + two64 / 2 = two64) by reflexivity.
  unfold _M_check_len, vector_max_size. cbn [_M_alloc].
  rewrite size_mk by lia.
  rewrite (u64_small (_S_max_size slot_size a - sz)) by lia.
  destruct (Z.ltb_spec (_S_max_size slot_size a - sz) n); [reflexivity | ].
  rewrite (u64_small (sz + Z.max sz n)) by lia.
  destruct (Z.ltb_spec (sz + Z.max sz n) sz); [lia | ]. simpl orb.
  destruct (Z.ltb_spec (_S_max_size slot_size a) (sz + Z.max sz n));
    f_equal; lia.
Qed.

End VectorGrowth.

(** X18. How far a vector grows.  [_M_check_len] throws exactly when [n]
    more elements would exceed [max_size()]; otherwise it asks for the size
    plus the larger of the size and [n], cut down to [max_size()].  The
    maximum is the ceiling of the facade whenever that is not zero, so a
    vector over a facade with a ceiling of ten never holds more than ten
    elements. *)
Theorem check_len_capped slot_size p sz cap a n :
  0 < slot_size -> 0 <= objs_number a ->
  0 <= sz <= _S_max_size slot_size a -> 0 <= n ->
  (_S_max_size slot_size a < sz + n ->
   _M_check_len slot_size n
     (mk_vector p (p + sz * slot_size) (p + cap * slot_size) a) = None) /\
  (sz + n <= _S_max_size slot_size a ->
   _M_check_len slot_size n
     (mk_vector p (p + sz * slot_size) (p + cap * slot_size) a)
   = Some (Z.min (_S_max_size slot_size a) (sz + Z.max sz n)) /\
   sz + n <= Z.min (_S_max_size slot_size a) (sz + Z.max sz n)
   <= _S_max_size slot_size a) /\
  (objs_number a <> 0 -> _S_max_size slot_size a <= objs_number a).
Proof.
  intros Sl O S N.
  rewrite (check_len_value slot_size Sl p sz cap a n O S N).
  conjs.
  - intros L. destruct (Z.ltb_spec (_S_max_size slot_size a - sz) n);
      [reflexivity | lia].
  - intros L. destruct (Z.ltb_spec (_S_max_size slot_size a - sz) n);
      [lia | ]. split; [reflexivity | lia].
  - intros Nz. unfold _S_max_size, max_size.
    apply Z.eqb_neq in Nz. rewrite Nz. lia.
Qed.

Lemma check_len_capped_witness :
  _M_check_len 8 3 (mk_vector 69632 (69632 + 8 * 8) (69632 + 8 * 8)
                              (mk_allocator 10 arena4)) = None /\
  _M_check_len 8 1 (mk_vector 69632 (69632 + 8 * 8) (69632 + 8 * 8)
                              (mk_allocator 10 arena4)) = Some 10.
Proof.
  destruct (check_len_capped 8 69632 8 8 (mk_allocator 10 arena4) 3)
    as (A & _); [ lia | simpl; lia | vm_compute; intuition discriminate
                | lia | ].
  destruct (check_len_capped 8 69632 8 8 (mk_allocator 10 arena4) 1)
    as (_ & B & _); [ lia | simpl; lia | vm_compute; intuition discriminate
                    | lia | ].
  split; [ apply A; vm_compute; reflexivity | ].
  destruct B as [B _]; [ vm_compute; discriminate | exact B ].
Defined.

(** X19. [grow] extends the storage of a vector in place when that
    storage is the last block of the arena.  On a host that grants every
    commit, with room for [n] more elements below [max_size()], let [len]
    be the length [_M_check_len] asks for, the size plus the larger of the
    size and [n], cut down to [max_size()].  When [len] is at least the
    capacity and the arena has [len - capacity] slots free, [grow] returns
    true: the elements stay where they are, the capacity becomes [len], and
    the arena counts the additional slots as occupied.  When the arena has
    fewer slots free it returns false and changes nothing.  When [len] is
    below the capacity, as it can be for a vector with spare capacity, the
    difference wraps around and [grow] returns false and changes nothing,
    however many slots are free. *)
Theorem grow_in_place K slot_size fuel n p sz cap a h :
  0 < slot_size -> generous K ->
  pool_inv slot_size (_pool a) -> coupled K (_pool a) h ->
  pages_left (_pool a) < Z.of_nat fuel ->
  0 < p -> 0 <= sz <= cap ->
  p + cap * slot_size = frontier slot_size (_pool a) ->
  0 <= objs_number a -> 0 <= n -> sz + n <= _S_max_size slot_size a ->
  (cap <= Z.min (_S_max_size slot_size a) (sz + Z.max sz n) ->
   Z.min (_S_max_size slot_size a) (sz + Z.max sz n) - cap
   <= free_slots_left (_pool a) ->
   exists s' h',
     grow K slot_size fuel n
       (mk_vector p (p + sz * slot_size) (p + cap * slot_size) a) h
     = Some (vreturned true,
             mk_vector p (p + sz * slot_size)
               (p + Z.min (_S_max_size slot_size a) (sz + Z.max sz n)
                    * slot_size)
               (mk_allocator (objs_number a) s'),
             h') /\
     pool_inv slot_size s' /\
     occupied_slots s'
     = occupied_slots (_pool a)
       + (Z.min (_S_max_size slot_size a) (sz + Z.max sz n) - cap)) /\
  (cap <= Z.min (_S_max_size slot_size a) (sz + Z.max sz n) ->
   free_slots_left (_pool a)
   < Z.min (_S_max_size slot_size a) (sz + Z.max sz n) - cap ->
   grow K slot_size fuel n
     (mk_vector p (p + sz * slot_size) (p + cap * slot_size) a) h
   = Some (vreturned false,
           mk_vector p (p + sz * slot_size) (p + cap * slot_size) a, h)) /\
  (Z.min (_S_max_size slot_size a) (sz + Z.max sz n) < cap ->
   grow K slot_size fuel n
     (mk_vector p (p + sz * slot_size) (p + cap * slot_size) a) h
   = Some (vreturned false,
           mk_vector p (p + sz * slot_size) (p + cap * slot_size) a, h)).
Proof.
  intros Sl G I C Fu P S Last O N Room.
  set (len := Z.min (_S_max_size slot_size a) (sz + Z.max sz n)) in *.
  pose proof (capacity_bytes _ Sl _ I) as Cb.
  destruct (frontier_exact _ Sl _ I) as [Fe Fr].
  assert (L : layout_ok (_pool a)) by (destruct I; assumption).
  assert (Fz : 0 <= free_slots_left (_pool a)) by (destruct I; assumption).
  assert (Top : end_gp (_pool a) < two64) by (destruct L; lia).
  assert (Cr : 0 <= cap < two64) by nia.
  assert (Pn : (p =? nullptr) = false) by (apply Z.eqb_neq; unfold nullptr; lia).
  assert (Ck : _M_check_len slot_size n
                 (mk_vector p (p + sz * slot_size) (p + cap * slot_size) a)
               = Some len).
  { rewrite (check_len_value slot_size Sl p sz cap a n O) by lia.
    destruct (Z.ltb_spec (_S_max_size slot_size a - sz) n);
      [lia | reflexivity]. }
  assert (Ln : 0 <= len < two64).
  { destruct (_S_max_size_range slot_size Sl a O) as [M1 M2].
    assert (PTRDIFF_MAX < two64) by reflexivity. unfold len. lia. }
  assert (Refused :
            free_slots_left (_pool a) < u64 (len - cap) ->
            grow K slot_size fuel n
              (mk_vector p (p + sz * slot_size) (p + cap * slot_size) a) h
            = Some (vreturned false,
                    mk_vector p (p + sz * slot_size) (p + cap * slot_size) a,
                    h)).
  { intros Short. unfold grow.
    cbn [_M_start _M_finish _M_end_of_storage _M_alloc].
    rewrite Pn, Ck, (capacity_mk slot_size Sl p sz cap a Cr).
    unfold expander_extend, extend_allocation_proxy, extend_allocation.
    rewrite Pn, (layout_not_null _ L).
    destruct (Z.ltb_spec (free_slots_left (_pool a)) (u64 (len - cap)));
      [ | lia ].
    destruct a; reflexivity. }
  conjs.
  - intros Cap Free.
    assert (Lr : 0 <= len - cap < two64) by lia.
    unfold grow. cbn [_M_start _M_finish _M_end_of_storage _M_alloc].
    rewrite Pn, Ck, (capacity_mk slot_size Sl p sz cap a Cr).
    unfold expander_extend, extend_allocation_proxy.
    assert (Ad : slot_add slot_size p cap = frontier slot_size (_pool a)).
    { unfold slot_add. rewrite Last. apply u64_small. lia. }
    destruct (extend_allocation_granted K slot_size G Sl fuel p cap len
                (_pool a) h I C) as (s' & h' & E & _);
      [ unfold nullptr; lia | rewrite u64_small by exact Lr; exact Free
      | exact Fu | exact Ad | ].
    destruct (extend_allocation_success K slot_size Sl fuel p cap len
                (_pool a) h s' h' I) as (I' & _ & Eo & _);
      [ unfold nullptr; lia | rewrite u64_small by exact Lr; exact Free
      | exact E | ].
    rewrite E. exists s', h'. conjs.
    + unfold slot_add. rewrite (u64_small (p + len * slot_size)) by nia.
      reflexivity.
    + exact I'.
    + rewrite Eo, u64_small by exact Lr. reflexivity.
  - intros Cap Short. apply Refused. rewrite u64_small by lia. exact Short.
  - intros Spare. apply Refused.
    replace (len - cap) with (- (cap - len)) by ring.
    rewrite u64_wrap_neg by lia. nia.
Qed.

Lemma grow_in_place_witness :
  (exists s' h',
     grow linux 8 3 1
       (mk_vector 69632 (69632 + 4 * 8) (69632 + 4 * 8)
          (mk_allocator 10 (set_slots arena4 4 1020))) host4
     = Some (vreturned true,
             mk_vector 69632 (69632 + 4 * 8) (69632 + 8 * 8)
               (mk_allocator 10 s'), h') /\
     pool_inv 8 s' /\ occupied_slots s' = 4 + (8 - 4)) /\
  grow linux 8 3 1
    (mk_vector 69632 (69632 + 1 * 8) (69632 + 8 * 8)
       (mk_allocator 10 (set_slots arena4 8 1016))) host4
  = Some (vreturned false,
          mk_vector 69632 (69632 + 1 * 8) (69632 + 8 * 8)
            (mk_allocator 10 (set_slots arena4 8 1016)), host4).
Proof.
  assert (I : forall o f, o + f = 1024 -> 0 <= o -> 0 <= f ->
                pool_inv 8 (set_slots arena4 o f)).
  { intros o f E Po Pf. destruct arena4_inv as [L Oc Fr Ca].
    constructor; [ destruct L; constructor; assumption | | | ];
      pool_simpl; try assumption; try (rewrite E; reflexivity). }
  assert (C : forall o f, coupled linux (set_slots arena4 o f) host4).
  { intros o f. destruct arena4_coupled as [C1 C2 C3].
    constructor; assumption. }
  split.
  - destruct (grow_in_place linux 8 3 1 69632 4 4
                (mk_allocator 10 (set_slots arena4 4 1020)) host4)
      as (A & _);
      [ lia | intros k x; reflexivity | apply I; lia | apply C
      | vm_compute; reflexivity | lia | lia | reflexivity | simpl; lia | lia
      | vm_compute; discriminate | ].
    apply A; vm_compute; discriminate.
  - destruct (grow_in_place linux 8 3 1 69632 1 8
                (mk_allocator 10 (set_slots arena4 8 1016)) host4)
      as (_ & _ & B);
      [ lia | intros k x; reflexivity | apply I; lia | apply C
      | vm_compute; reflexivity | lia | lia | reflexivity | simpl; lia | lia
      | vm_compute; discriminate | ].
    apply B. vm_compute. reflexivity.
Defined.

(** ** A page size that cannot be queried *)

(** X20. A failed [sysconf] is remembered as a page size.  When the query
    fails, [init_pool] returns false with [pagesize] left at [-1] and
    nothing mapped; the next [init_pool] does not query again, asks [mmap]
    for the wrapped length [2^64 - pgs], which no address space can hold,
    and leaves [begin_gp] at [MAP_FAILED]. *)
Theorem sysconf_failure_is_remembered K slot_size pgs0 pgs h0 h :
  page_size K = -1 -> 0 < pages_to_map pgs <= user_top ->
  init_pool K slot_size pgs0 empty_pool h0
  = (false, set_pagesize_field empty_pool (-1), h0) /\
  init_pool K slot_size pgs (set_pagesize_field empty_pool (-1)) h
  = (false,
     set_begin_gp (set_pagesize_field empty_pool (-1)) MAP_FAILED,
     tick h).
Proof.
  intros Ps B. split.
  - unfold init_pool, set_pagesize. cbn [pagesize empty_pool].
    simpl Z.eqb. cbv iota. rewrite Ps. reflexivity.
  - unfold init_pool. cbn [pagesize set_pagesize_field empty_pool].
    simpl Z.eqb. cbv iota. simpl andb. cbv iota.
    cbn [begin_gp empty_pool]. simpl Z.eqb. simpl negb. cbv iota.
    assert (E : u64 (pages_to_map pgs * u64 (-1))
                = two64 - pages_to_map pgs).
    { change (u64 (-1)) with (two64 - 1). unfold u64.
      replace (pages_to_map pgs * (two64 - 1))
        with (- pages_to_map pgs + pages_to_map pgs * two64) by ring.
      rewrite Z.mod_add by discriminate.
      apply u64_wrap_neg. unfold user_top in B.
      assert (9223372036854775808 < two64) by reflexivity. lia. }
    change (pagesize (set_pagesize_field empty_pool (-1))) with (-1).
    rewrite E. unfold mmap.
    set (a := mmap_pick K (syscalls h) (two64 - pages_to_map pgs)).
    assert (F : (0 <? two64 - pages_to_map pgs) && (0 <? a)
                && (a mod page_size K =? 0)
                && (a + (two64 - pages_to_map pgs) <=? user_top) = false).
    { destruct (Z.ltb_spec 0 a); [ | rewrite andb_false_r; reflexivity ].
      destruct (Z.leb_spec (a + (two64 - pages_to_map pgs)) user_top);
        [ | apply andb_false_r ].
      assert (two64 = user_top + user_top) by reflexivity. lia. }
    rewrite F. rewrite Z.eqb_refl. reflexivity.
Qed.

Lemma sysconf_failure_is_remembered_witness :
  init_pool (mk_kernel (-1) (fun _ _ => 65536) (fun _ _ => true)
                       (fun _ => true)) 8 0 empty_pool fresh_host
  = (false, set_pagesize_field empty_pool (-1), fresh_host) /\
  init_pool (mk_kernel (-1) (fun _ _ => 65536) (fun _ _ => true)
                       (fun _ => true)) 8 0
            (set_pagesize_field empty_pool (-1)) fresh_host
  = (false, set_begin_gp (set_pagesize_field empty_pool (-1)) MAP_FAILED,
     tick fresh_host).
Proof.
  apply (sysconf_failure_is_remembered
           (mk_kernel (-1) (fun _ _ => 65536) (fun _ _ => true)
                      (fun _ => true)) 8 0 0 fresh_host fresh_host).
  - reflexivity.
  - vm_compute. split; [reflexivity | discriminate].
Defined.
